(** * The cavity-flow kernels of the numba tutorial, embedded in Rocq

    The notebooks define three array-mutating routines over float64 grids:

    - [velocity_term] (05.0.A, Poisson source term from the velocities),
    - [pressure_poisson] (05.0.A with numpy slices; the exercise solution and
      the compiled-module notebook 06.1 with explicit loops),
    - [cavity_flow] (05.0.A, the time-stepping driver).

    Scalars are IEEE binary64 numbers (Rocq's primitive [float]); a
    two-dimensional array is the list of its rows.  A call either returns,
    raises a Python exception, or is still running when the fuel of the
    [while] loop is used up. *)

From stdpp Require Import base option list gmap.
From Stdlib Require Import Floats ZArith.

Local Open Scope Z_scope.

(** ** Outcomes of a Python call *)

Inductive exn : Set := IndexError | ValueError | ZeroDivisionError | OverflowError.

Inductive result (A : Type) : Type :=
  | Ok (a : A)
  | Raise (e : exn)
  | Running.
Arguments Ok {A} a.
Arguments Raise {A} e.
Arguments Running {A}.

#[global] Instance result_ret : MRet result := λ A a, Ok a.
#[global] Instance result_bind : MBind result := λ A B f m,
  match m with
  | Ok a => f a
  | Raise e => Raise e
  | Running => Running
  end.
#[global] Instance float_inhabited : Inhabited float := populate 0%float.

(** ** Python indexing *)

(** [a[k]] on an axis of length [n]: negative indices count from the end. *)
Definition py_index (n : nat) (k : Z) : result nat :=
  if bool_decide (0 ≤ k < Z.of_nat n) then Ok (Z.to_nat k)
  else if bool_decide (- Z.of_nat n ≤ k < 0) then Ok (Z.to_nat (Z.of_nat n + k))
  else Raise IndexError.

(** [for i in range(lo, hi): s = body(i, s)], as the list [lo, ..., hi-1]. *)
Definition range (lo hi : Z) : list Z := seqZ lo (hi - lo).

Fixpoint for_each {S : Type} (l : list Z) (body : Z → S → result S) (s : S) : result S :=
  match l with
  | [] => Ok s
  | i :: l' => s' ← body i s; for_each l' body s'
  end.

(** Scalar arithmetic on Python floats: [/] raises on a zero divisor. *)
Definition py_truediv (x y : float) : result float :=
  if PrimFloat.eqb y 0 then Raise ZeroDivisionError else Ok (x / y)%float.

(** [x ** 2] on a Python float is C's [pow(x, 2.0)], whose value is the
    rounded square; Python turns an overflowing result of finite operands
    into OverflowError. *)
Definition py_pow2 (x : float) : result float :=
  let y := (x * x)%float in
  if PrimFloat.is_infinity y && negb (PrimFloat.is_infinity x)
  then Raise OverflowError else Ok y.

(** ** Two-dimensional float64 arrays *)

Abbreviation grid := (list (list float)).

Definition nrows (g : grid) : nat := length g.
Definition ncols (g : grid) : nat := from_option length 0%nat (head g).

(** [g] has shape [(ny, nx)]. *)
Definition rect (ny nx : nat) (g : grid) : Prop :=
  length g = ny ∧ Forall (λ r, length r = nx) g.

Definition cell (g : grid) (i j : nat) : option float := g !! i ≫= (.!! j).

Definition val (g : grid) (i j : nat) : float := (g !!! i) !!! j.

(** The cells [g[1:-1, 1:-1]] covers in an array of shape [(ny, nx)]. *)
Definition interior (ny nx i j : nat) : Prop :=
  (1 ≤ i ∧ i + 1 < ny ∧ 1 ≤ j ∧ j + 1 < nx)%nat.

Definition zeros (ny nx : nat) : grid := replicate ny (replicate nx 0%float).

(** The list [h 0, ..., h (n-1)], and the array whose cell [(i, j)] is [f i j]. *)
Definition ltab {A} (n : nat) (h : nat → A) : list A := h <$> seq 0 n.
Definition tab (ny nx : nat) (f : nat → nat → float) : grid :=
  ltab ny (λ i, ltab nx (f i)).

(** [g[i, j]] and [g[i, j] = x] with integer indices. *)
Definition getitem (g : grid) (i j : Z) : result float :=
  i' ← py_index (nrows g) i;
  j' ← py_index (ncols g) j;
  Ok ((g !!! i') !!! j').

Definition setitem (g : grid) (i j : Z) (x : float) : result grid :=
  i' ← py_index (nrows g) i;
  j' ← py_index (ncols g) j;
  Ok (alter (<[j' := x]>) i' g).

Module Np.

(** Basic slices never raise. *)
Definition inner {A} (l : list A) : list A := take (length l - 2) (drop 1 l).  (* l[1:-1] *)
Definition from2 {A} (l : list A) : list A := drop 2 l.                         (* l[2:]   *)
Definition upto_m2 {A} (l : list A) : list A := take (length l - 2) l.          (* l[:-2]  *)

Definition sl_in_in (g : grid) : grid := inner <$> inner g.     (* g[1:-1, 1:-1] *)
Definition sl_in_hi (g : grid) : grid := from2 <$> inner g.     (* g[1:-1, 2:]   *)
Definition sl_in_lo (g : grid) : grid := upto_m2 <$> inner g.   (* g[1:-1, :-2]  *)
Definition sl_hi_in (g : grid) : grid := inner <$> from2 g.     (* g[2:, 1:-1]   *)
Definition sl_lo_in (g : grid) : grid := inner <$> upto_m2 g.   (* g[:-2, 1:-1]  *)

(** Elementwise operations.  Operands of one shape are combined cell by
    cell; numpy broadcasts or raises ValueError on operands of different
    shapes, and broadcasting between different shapes is not modelled: such
    a call is given the ValueError. *)
Definition same_shape (a b : grid) : bool :=
  bool_decide (length <$> a = length <$> b).

Definition zip2 (f : float → float → float) (a b : grid) : grid :=
  zip_with (zip_with f) a b.

Definition binop (f : float → float → float) (a b : grid) : result grid :=
  if same_shape a b then Ok (zip2 f a b) else Raise ValueError.

Definition add := binop PrimFloat.add.
Definition sub := binop PrimFloat.sub.
Definition mul := binop PrimFloat.mul.

Definition map1 (f : float → float) (a : grid) : grid := (λ row : list float, f <$> row) <$> a.

Definition scale (c : float) : grid → grid := map1 (PrimFloat.mul c).        (* c * a  *)
Definition over (a : grid) (c : float) : grid := map1 (λ x, x / c)%float a.   (* a / c  *)
Definition square : grid → grid := map1 (λ x, x * x)%float.                   (* a ** 2 *)

(** [numpy.sum(a)]: the cells added up in row-major order.  numpy groups
    the additions in blocks of its own; the grouping only matters for the
    last bits of an inexact sum. *)
Definition sum (a : grid) : float := foldl PrimFloat.add 0%float (concat a).

(** [g[1:-1, 1:-1] = v] *)
Definition is_inner (n i : nat) : bool := bool_decide (1 ≤ i ∧ i + 1 < n)%nat.

Definition set_inner (g v : grid) : result grid :=
  if same_shape (sl_in_in g) v then
    Ok (imap (λ i row,
              if is_inner (length g) i then
                imap (λ j x,
                      if is_inner (length row) j
                      then default x (cell v (i - 1) (j - 1)) else x) row
              else row) g)
  else Raise ValueError.

(** [g[:, k]], [g[:, k] = v], [g[:, k] = x] *)
Definition get_col (g : grid) (k : Z) : result (list float) :=
  j ← py_index (ncols g) k; Ok ((.!!! j) <$> g).
Definition set_col (g : grid) (k : Z) (v : list float) : result grid :=
  j ← py_index (ncols g) k;
  if bool_decide (length v = length g) then Ok (zip_with (λ row x, <[j := x]> row) g v)
  else Raise ValueError.
Definition fill_col (g : grid) (k : Z) (x : float) : result grid :=
  j ← py_index (ncols g) k; Ok ((<[j := x]>) <$> g).

(** [g[k, :]], [g[k, :] = v], [g[k, :] = x] *)
Definition get_row (g : grid) (k : Z) : result (list float) :=
  i ← py_index (nrows g) k; Ok (g !!! i).
Definition set_row (g : grid) (k : Z) (v : list float) : result grid :=
  i ← py_index (nrows g) k;
  if bool_decide (length v = ncols g) then Ok (<[i := v]> g) else Raise ValueError.
Definition fill_row (g : grid) (k : Z) (x : float) : result grid :=
  i ← py_index (nrows g) k; Ok (<[i := replicate (ncols g) x]> g).

End Np.

(** ** The convergence test shared by every [pressure_poisson] *)

(** One evaluation of
    [sqrt(numpy.sum((p - pn)**2) / numpy.sum(pn**2))]: the sweep it was made
    in (counted from 0), the two sums and the quotient's root. *)
Record check : Set := Check {
  at_sweep : nat;
  numerator : float;
  denominator : float;
  rel_change : float;
}.

Definition l2_diff (sweep : nat) (p pn : grid) : result check :=
  d ← Np.sub p pn;
  let num := Np.sum (Np.square d) in
  let den := Np.sum (Np.square pn) in
  Ok (Check sweep num den (PrimFloat.sqrt (num / den))).

(** What a call of [pressure_poisson] hands back, with the number of
    relaxation sweeps it made and the convergence tests it evaluated. *)
Record solve : Type := Solve {
  pressure : grid;
  sweeps : nat;
  checks : list check;
}.

(** ** 05.0.A: [velocity_term], [pressure_poisson] and [cavity_flow] on numpy slices *)

Module Numpy.

(** The right-hand side assigned to [b[1:-1, 1:-1]].  [rho], [dt] and [dx]
    are Python floats, as [cavity_flow]'s callers pass them, so the scalar
    quotients [2 / dt] and [2 / dx] raise on a zero divisor; an array
    divided by [dx] does not. *)
Definition source (rho dt : float) (u v : grid) (dx : float) : result grid :=
  let c := (rho * dx / 16)%float in
  c_t ← py_truediv 2 dt;
  du_x ← Np.sub (Np.sl_in_hi u) (Np.sl_in_lo u);
  a ← Np.add du_x (Np.sl_hi_in v);
  a ← Np.sub a (Np.sl_lo_in v);
  let t1 := Np.scale c_t a in
  c_x ← py_truediv 2 dx;
  du_y ← Np.sub (Np.sl_hi_in u) (Np.sl_lo_in u);
  dv_x ← Np.sub (Np.sl_in_hi v) (Np.sl_in_lo v);
  t2 ← Np.mul (Np.scale c_x du_y) dv_x;
  t12 ← Np.sub t1 t2;
  du_x' ← Np.sub (Np.sl_in_hi u) (Np.sl_in_lo u);
  t123 ← Np.sub t12 (Np.over (Np.square du_x') dx);
  dv_y ← Np.sub (Np.sl_hi_in v) (Np.sl_lo_in v);
  t1234 ← Np.sub t123 (Np.over (Np.square dv_y) dx);
  Ok (Np.scale c t1234).

(** The arrays are objects of the Python heap: [velocity_term] writes into
    the array its first argument names and returns that same object. *)
Abbreviation heap := (gmap nat grid).

(** The call on the contents of the three arrays. *)
Definition velocity_term_on (b : grid) (rho dt : float) (u v : grid) (dx : float)
    : result grid :=
  rhs ← source rho dt u v dx;
  Np.set_inner b rhs.

Definition velocity_term (b : nat) (rho dt : float) (u v : nat) (dx : float)
    (h : heap) : result (nat * heap) :=
  b' ← velocity_term_on (h !!! b) rho dt (h !!! u) (h !!! v) dx;
  Ok (b, <[b := b']> h).

(** [.25 * (pn[1:-1, 2:] + pn[1:-1, :-2] + pn[2:, 1:-1] + pn[:-2, 1:-1]) - b[1:-1, 1:-1]] *)
Definition relaxed (pn b : grid) : result grid :=
  s ← Np.add (Np.sl_in_hi pn) (Np.sl_in_lo pn);
  s ← Np.add s (Np.sl_hi_in pn);
  s ← Np.add s (Np.sl_lo_in pn);
  Np.sub (Np.scale 0.25 s) (Np.sl_in_in b).

(** [p[1:-1, 1:-1] =] that right-hand side *)
Definition relax (pn b p : grid) : result grid :=
  v ← relaxed pn b; Np.set_inner p v.

Definition boundary (p : grid) : result grid :=
  c ← Np.get_col p 1; p ← Np.set_col p 0 c;          (* p[:, 0] = p[:, 1]   *)
  c ← Np.get_col p (-2); p ← Np.set_col p (-1) c;    (* p[:, -1] = p[:, -2] *)
  r ← Np.get_row p 1; p ← Np.set_row p 0 r;          (* p[0, :] = p[1, :]   *)
  Np.fill_row p (-1) 0.                              (* p[-1, :] = 0        *)

(** One pass of the body of the [while] loop, in sweep number [k].  The
    body starts with [n = 0], so the tests on [n] below always see 0: it
    yields the new [p], the convergence test if one was made, and whether
    [break] was reached. *)
Definition sweep (b : grid) (k : nat) (p : grid) : result (grid * option check * bool) :=
  let n := 0 in
  let pn := p in
  p ← relax pn b p;
  p ← boundary p;
  c ← (if bool_decide (n `mod` 10 = 0) then c ← l2_diff k p pn; Ok (Some c) else Ok None);
  Ok (p, c, bool_decide (n = 500)).

Fixpoint while_loop (fuel : nat) (b : grid) (l2_target : float)
    (p : grid) (iter_diff : float) (k : nat) (log : list check) : result solve :=
  if (l2_target <? iter_diff)%float then
    match fuel with
    | O => Running
    | S fuel =>
        '(p, c, brk) ← sweep b k p;
        let iter_diff := from_option rel_change iter_diff c in
        let log := log ++ option_list c in
        if brk : bool then Ok (Solve p (S k) log)
        else while_loop fuel b l2_target p iter_diff (S k) log
    end
  else Ok (Solve p k log).

Definition pressure_poisson (fuel : nat) (p b : grid) (l2_target : float) : result solve :=
  let iter_diff := (l2_target + 1)%float in
  while_loop fuel b l2_target p iter_diff 0 [].

(** The interior updates of [u] and [v] in one time step. *)
Definition laplacian (w : grid) : result grid :=
  s ← Np.add (Np.sl_in_hi w) (Np.sl_in_lo w);
  s ← Np.add s (Np.sl_hi_in w);
  s ← Np.add s (Np.sl_lo_in w);
  Np.sub s (Np.scale 4 (Np.sl_in_in w)).

Definition diffusion (nu dt dx : float) : result float :=
  dx2 ← py_pow2 dx; py_truediv (nu * dt) dx2.

Definition u_interior (un vn p : grid) (rho nu dt dx : float) : result grid :=
  let c := Np.sl_in_in un in
  r ← py_truediv dt dx;
  dx_u ← Np.sub c (Np.sl_in_lo un);
  ax ← Np.mul c dx_u;
  dy_u ← Np.sub c (Np.sl_lo_in un);
  ay ← Np.mul (Np.sl_in_in vn) dy_u;
  adv ← Np.add ax ay;
  g ← py_truediv 1 (2 * rho);
  dp ← Np.sub (Np.sl_in_hi p) (Np.sl_in_lo p);
  t ← Np.add adv (Np.scale g dp);
  lhs ← Np.sub c (Np.scale r t);
  d ← diffusion nu dt dx;
  lap ← laplacian un;
  Np.add lhs (Np.scale d lap).

Definition v_interior (un vn p : grid) (rho nu dt dx : float) : result grid :=
  let c := Np.sl_in_in vn in
  r ← py_truediv dt dx;
  dx_v ← Np.sub c (Np.sl_in_lo vn);
  ax ← Np.mul (Np.sl_in_in un) dx_v;
  dy_v ← Np.sub c (Np.sl_lo_in vn);
  ay ← Np.mul (Np.sl_in_in vn) dy_v;
  adv ← Np.add ax ay;
  g ← py_truediv 1 (2 * rho);
  dp ← Np.sub (Np.sl_hi_in p) (Np.sl_lo_in p);
  t ← Np.add adv (Np.scale g dp);
  lhs ← Np.sub c (Np.scale r t);
  d ← diffusion nu dt dx;
  lap ← laplacian vn;
  Np.add lhs (Np.scale d lap).

Definition velocity_boundary (u v : grid) : result (grid * grid) :=
  u ← Np.fill_col u 0 0;
  u ← Np.fill_col u (-1) 0;
  v ← Np.fill_col v 0 0;
  v ← Np.fill_col v (-1) 0;
  u ← Np.fill_row u 0 0;
  u ← Np.fill_row u (-1) 1;    (* set velocity on cavity lid equal to 1 *)
  v ← Np.fill_row v 0 0;
  v ← Np.fill_row v (-1) 0;
  Ok (u, v).

(** The flow state carried from one time step to the next. *)
Record flow : Type := Flow { f_u : grid; f_v : grid; f_p : grid; f_b : grid }.

Definition time_step (fuel : nat) (dt dx rho nu rtol : float) (s : flow) : result flow :=
  let un := f_u s in
  let vn := f_v s in
  b ← velocity_term_on (f_b s) rho dt (f_u s) (f_v s) dx;
  r ← pressure_poisson fuel (f_p s) b rtol;
  let p := pressure r in
  ui ← u_interior un vn p rho nu dt dx;
  u ← Np.set_inner (f_u s) ui;
  vi ← v_interior un vn p rho nu dt dx;
  v ← Np.set_inner (f_v s) vi;
  '(u, v) ← velocity_boundary u v;
  Ok (Flow u v p b).

Fixpoint time_loop (fuel nt : nat) (dt dx rho nu rtol : float) (s : flow) : result flow :=
  match nt with
  | O => Ok s
  | S nt => s ← time_step fuel dt dx rho nu rtol s; time_loop fuel nt dt dx rho nu rtol s
  end.

(** [fuel] bounds the sweeps of each call of [pressure_poisson]. *)
Definition cavity_flow (fuel nt : nat) (u v : grid) (dt dx : float) (p : grid)
    (rho nu rtol : float) : result (grid * grid * grid) :=
  let b := zeros (nrows u) (ncols u) in
  s ← time_loop fuel nt dt dx rho nu rtol (Flow u v p b);
  Ok (f_u s, f_v s, f_p s).

End Numpy.

(** ** The loop versions of [pressure_poisson]: the exercise solution and notebook 06.1 *)

Module Jit.

(** The value written to [p[i, j]].  The exercise solution adds the four
    neighbours as [pn[i+1, j] + pn[i-1, j] + pn[i, j+1] + pn[i, j-1]]; notebook
    06.1 as [pn[i, j+1] + pn[i, j-1] + pn[i+1, j] + pn[i-1, j]]. *)
Definition relaxed_exercise (pn b : grid) (i j : Z) : result float :=
  x1 ← getitem pn (i + 1) j;
  x2 ← getitem pn (i - 1) j;
  x3 ← getitem pn i (j + 1);
  x4 ← getitem pn i (j - 1);
  let p_ := (x1 + x2 + x3 + x4)%float in
  bij ← getitem b i j;
  Ok (0.25 * p_ - bij)%float.

Definition relaxed_cc (pn b : grid) (i j : Z) : result float :=
  x1 ← getitem pn i (j + 1);
  x2 ← getitem pn i (j - 1);
  x3 ← getitem pn (i + 1) j;
  x4 ← getitem pn (i - 1) j;
  bij ← getitem b i j;
  Ok (0.25 * (x1 + x2 + x3 + x4) - bij)%float.

Section Loops.
Variable relaxed : grid → grid → Z → Z → result float.

(** The inner loop over [j], for one row [i], and the loop over the rows. *)
Definition relax_row (J : nat) (pn b : grid) (i : Z) (p : grid) : result grid :=
  for_each (range 1 (Z.of_nat J - 1)) (λ j p, x ← relaxed pn b i j; setitem p i j x) p.

Definition relax (I J : nat) (pn b p : grid) : result grid :=
  for_each (range 1 (Z.of_nat I - 1)) (relax_row J pn b) p.

Definition boundary (I J : nat) (p : grid) : result grid :=
  p ← for_each (range 0 (Z.of_nat I)) (λ i p,
         x ← getitem p i 1; p ← setitem p i 0 x;
         setitem p i (-1) 0) p;
  for_each (range 0 (Z.of_nat J)) (λ j p,
    x ← getitem p 1 j; p ← setitem p 0 j x;
    x ← getitem p (-2) j; setitem p (-1) j x) p.

Definition sweep (I J : nat) (b : grid) (n : nat) (p : grid)
    : result (grid * option check) :=
  let pn := p in
  p ← relax I J pn b p;
  p ← boundary I J p;
  c ← (if bool_decide (n `mod` 10 = 0)%nat then c ← l2_diff n p pn; Ok (Some c)
       else Ok None);
  Ok (p, c).

Fixpoint while_loop (fuel : nat) (I J : nat) (b : grid) (l2_target : float)
    (p : grid) (iter_diff : float) (n : nat) (log : list check) : result solve :=
  if (l2_target <? iter_diff)%float && bool_decide (n ≤ 500)%nat then
    match fuel with
    | O => Running
    | S fuel =>
        '(p, c) ← sweep I J b n p;
        let iter_diff := from_option rel_change iter_diff c in
        while_loop fuel I J b l2_target p iter_diff (S n) (log ++ option_list c)
    end
  else Ok (Solve p n log).

Definition pressure_poisson (fuel : nat) (p b : grid) (l2_target : float) : result solve :=
  let I := nrows b in
  let J := ncols b in
  let iter_diff := (l2_target + 1)%float in
  while_loop fuel I J b l2_target p iter_diff 0 [].

End Loops.

Definition pressure_poisson_exercise := pressure_poisson relaxed_exercise.
Definition pressure_poisson_cc := pressure_poisson relaxed_cc.

End Jit.

(** ** Closed forms

    The value an operation leaves in cell [(i, j)] of an array of shape
    [(ny, nx)], as a function of the cells it started from. *)

Section closed.
Variables ny nx : nat.
Implicit Types (f pn b p : nat → nat → float) (i j : nat).
Local Open Scope nat_scope.

(** The four saved neighbours in the order of 05.0.A and 06.1, and in the
    order of the exercise solution. *)
Definition stencil pn b i j : float :=
  (0.25 * (pn i (j + 1)%nat + pn i (j - 1)%nat + pn (i + 1)%nat j + pn (i - 1)%nat j)
   - b i j)%float.

Definition stencil_exercise pn b i j : float :=
  (0.25 * (pn (i + 1)%nat j + pn (i - 1)%nat j + pn i (j + 1)%nat + pn i (j - 1)%nat)
   - b i j)%float.

Definition on_interior (new old : nat → nat → float) i j : float :=
  if decide (interior ny nx i j) then new i j else old i j.

(** The source term of the pressure equation. *)
Definition source_cell (rho dt dx : float) (u v : nat → nat → float) i j : float :=
  (rho * dx / 16 *
   (2 / dt * (u i (j + 1)%nat - u i (j - 1)%nat + v (i + 1)%nat j - v (i - 1)%nat j)
    - 2 / dx * (u (i + 1)%nat j - u (i - 1)%nat j) * (v i (j + 1)%nat - v i (j - 1)%nat)
    - (u i (j + 1)%nat - u i (j - 1)%nat) * (u i (j + 1)%nat - u i (j - 1)%nat) / dx
    - (v (i + 1)%nat j - v (i - 1)%nat j) * (v (i + 1)%nat j - v (i - 1)%nat j) / dx))%float.

(** The momentum updates of [cavity_flow], from the saved velocities [un],
    [vn] and the fresh pressure [p]. *)
Definition u_cell (un vn p : nat → nat → float) (rho nu dt dx : float) i j : float :=
  (un i j
   - dt / dx * (un i j * (un i j - un i (j - 1)%nat)
                + vn i j * (un i j - un (i - 1)%nat j)
                + 1 / (2 * rho) * (p i (j + 1)%nat - p i (j - 1)%nat))
   + nu * dt / (dx * dx)
     * (un i (j + 1)%nat + un i (j - 1)%nat + un (i + 1)%nat j + un (i - 1)%nat j
        - 4 * un i j))%float.

Definition v_cell (un vn p : nat → nat → float) (rho nu dt dx : float) i j : float :=
  (vn i j
   - dt / dx * (un i j * (vn i j - vn i (j - 1)%nat)
                + vn i j * (vn i j - vn (i - 1)%nat j)
                + 1 / (2 * rho) * (p (i + 1)%nat j - p (i - 1)%nat j))
   + nu * dt / (dx * dx)
     * (vn i (j + 1)%nat + vn i (j - 1)%nat + vn (i + 1)%nat j + vn (i - 1)%nat j
        - 4 * vn i j))%float.

(** The [v] update as the specification words it: the previous [u] as the
    advecting velocity of the x-derivative term and of the y-derivative term. *)
Definition v_cell_as_claimed (un vn p : nat → nat → float) (rho nu dt dx : float) i j
    : float :=
  (vn i j
   - dt / dx * (un i j * (vn i j - vn i (j - 1)%nat)
                + un i j * (vn i j - vn (i - 1)%nat j)
                + 1 / (2 * rho) * (p (i + 1)%nat j - p (i - 1)%nat j))
   + nu * dt / (dx * dx)
     * (vn i (j + 1)%nat + vn i (j - 1)%nat + vn (i + 1)%nat j + vn (i - 1)%nat j
        - 4 * vn i j))%float.

(** The velocity boundary code: columns, then row 0, then the lid row. *)
Definition walls (lid : float) f i j : float :=
  if decide (i = ny - 1) then lid
  else if decide (i = 0) then 0%float
  else if decide (j = nx - 1) then 0%float
  else if decide (j = 0) then 0%float
  else f i j.

(** 05.0.A: columns first, then row 0, then the last row. *)
Definition numpy_bc f i j : float :=
  let f1 i j := if decide (j = 0) then f i 1 else f i j in
  let f2 i j := if decide (j = nx - 1) then f1 i (nx - 2) else f1 i j in
  let f3 i j := if decide (i = 0) then f2 1 j else f2 i j in
  if decide (i = ny - 1) then 0%float else f3 i j.

(** The loop versions: the loop over the rows, then the loop over the columns. *)
Definition jit_bc_rows f i j : float :=
  if decide (j = nx - 1) then 0%float else if decide (j = 0) then f i 1 else f i j.

Definition jit_bc_cols f i j : float :=
  let h i j := if decide (i = 0) then f 1 j else f i j in
  if decide (i = ny - 1) then h (ny - 2) j else h i j.

Definition jit_bc f : nat → nat → float := jit_bc_cols (jit_bc_rows f).

End closed.

Arguments stencil : simpl never.
Arguments u_cell : simpl never.
Arguments v_cell : simpl never.
Arguments v_cell_as_claimed : simpl never.
Arguments walls : simpl never.
Arguments source_cell : simpl never.
Arguments stencil_exercise : simpl never.
Arguments on_interior : simpl never.
Arguments numpy_bc : simpl never.
Arguments jit_bc_rows : simpl never.
Arguments jit_bc_cols : simpl never.
Arguments jit_bc : simpl never.

(** +0.0 and -0.0, the two numbers Python's [x == 0] accepts. *)
Definition is_sf_zero (x : spec_float) : Prop := ∃ s, x = S754_zero s.

(** ** Sample inputs *)

(** [1e-4], the default [l2_target], as the binary64 number Python reads. *)
Definition default_l2_target : float := 0x1.a36e2eb1c432dp-14%float.

(** A pressure that decays by a quarter in every sweep of 05.0.A when the
    source is zero. *)
Definition decaying_p : grid := [[1; 1; 1]; [1; 1; 1]; [0; 0; 0]]%float.

(** A pressure and a source whose relaxation converges to 1 from above. *)
Definition settling_p : grid := [[2; 2; 2]; [2; 2; 2]; [0; 0; 0]]%float.
Definition settling_b : grid := [[0; 0; 0]; [0; -0.25; 0]; [0; 0; 0]]%float.

Definition ones3 : grid := [[1; 1; 1]; [1; 1; 1]; [1; 1; 1]]%float.

(** A flow state with [u = 1] and [v = 2] in the centre cell only. *)
Definition centre_flow : Numpy.flow :=
  Numpy.Flow [[0; 0; 0]; [0; 1; 0]; [0; 0; 0]]%float
             [[0; 0; 0]; [0; 2; 0]; [0; 0; 0]]%float
             (zeros 3 3) (zeros 3 3).

(** Three distinct arrays of zeros: [b] is object 0, [u] object 1, [v] object 2. *)
Definition zero_heap : Numpy.heap :=
  <[0%nat := zeros 3 3]> (<[1%nat := zeros 3 3]> (<[2%nat := zeros 3 3]> ∅)).

(** Neighbours of the centre whose sum depends on the order of the additions:
    2^53 to the left, -2^53 below, 1 to the right. *)
Definition cancelling_p : grid :=
  [[0; 0; 0]; [9007199254740992; 5; 1]; [0; -9007199254740992; 0]]%float.

(** * Properties *)

(** ** Tabulated lists and arrays *)

Section ltab.
Context {A : Type}.
Implicit Types (h g : nat → A) (l : list A).

Lemma lookup_ltab n h i : ltab n h !! i = if decide (i < n)%nat then Some (h i) else None.
Proof.
  unfold ltab. rewrite list_lookup_fmap.
  case_decide; [rewrite lookup_seq_lt | rewrite lookup_seq_ge]; auto with lia.
Qed.

Lemma lookup_ltab_lt n h i : (i < n)%nat → ltab n h !! i = Some (h i).
Proof. intros. rewrite lookup_ltab. by case_decide. Qed.

Lemma length_ltab n h : length (ltab n h) = n.
Proof. unfold ltab. by rewrite length_fmap, length_seq. Qed.

Lemma ltab_ext n h g : (∀ i, (i < n)%nat → h i = g i) → ltab n h = ltab n g.
Proof.
  intros E. apply list_eq; intros i. rewrite !lookup_ltab.
  case_decide; [f_equal; auto | done].
Qed.

Lemma ltab_lookup_total `{!Inhabited A} l : l = ltab (length l) (λ i, l !!! i).
Proof.
  apply list_eq; intros i. rewrite lookup_ltab. case_decide.
  - by apply list_lookup_lookup_total_lt.
  - apply lookup_ge_None. lia.
Qed.

Lemma lookup_total_ltab `{!Inhabited A} n h i : (i < n)%nat → ltab n h !!! i = h i.
Proof. intros. by rewrite list_lookup_total_alt, lookup_ltab_lt. Qed.

Lemma take_ltab k n h : (k ≤ n)%nat → take k (ltab n h) = ltab k h.
Proof.
  intros. apply list_eq; intros i. rewrite lookup_take, !lookup_ltab.
  repeat case_decide; done || lia.
Qed.

Lemma drop_ltab k n h : drop k (ltab n h) = ltab (n - k) (λ i, h (k + i)%nat).
Proof.
  apply list_eq; intros i. rewrite lookup_drop, !lookup_ltab.
  repeat case_decide; done || lia.
Qed.

Lemma insert_ltab n h i x :
  <[i := x]> (ltab n h) = ltab n (λ k, if decide (k = i) then x else h k).
Proof.
  apply list_eq; intros k. rewrite list_lookup_insert, length_ltab, !lookup_ltab.
  repeat case_decide; done || lia || naive_solver lia.
Qed.

Lemma alter_ltab (F : A → A) n h i :
  alter F i (ltab n h) = ltab n (λ k, if decide (k = i) then F (h k) else h k).
Proof.
  apply list_eq; intros k. rewrite list_lookup_alter, !lookup_ltab.
  repeat case_decide; done || lia || naive_solver lia.
Qed.

Lemma replicate_ltab n (x : A) : replicate n x = ltab n (λ _, x).
Proof.
  apply list_eq; intros i. rewrite lookup_ltab. case_decide.
  - by apply lookup_replicate_2.
  - apply lookup_ge_None. rewrite length_replicate. lia.
Qed.

Lemma head_ltab n h : head (ltab n h) = if decide (0 < n)%nat then Some (h 0%nat) else None.
Proof. by rewrite head_lookup, lookup_ltab. Qed.

Lemma inner_ltab n h : Np.inner (ltab n h) = ltab (n - 2) (λ i, h (1 + i)%nat).
Proof.
  unfold Np.inner. rewrite length_ltab, drop_ltab, take_ltab by lia. done.
Qed.

Lemma from2_ltab n h : Np.from2 (ltab n h) = ltab (n - 2) (λ i, h (2 + i)%nat).
Proof. apply drop_ltab. Qed.

Lemma upto_m2_ltab n h : Np.upto_m2 (ltab n h) = ltab (n - 2) h.
Proof. unfold Np.upto_m2. rewrite length_ltab. apply take_ltab. lia. Qed.

End ltab.

Lemma fmap_ltab {A B} (F : A → B) n (h : nat → A) : F <$> ltab n h = ltab n (λ i, F (h i)).
Proof. unfold ltab. by rewrite <-list_fmap_compose. Qed.

Lemma zip_with_ltab {A B C} (F : A → B → C) n (h : nat → A) (g : nat → B) :
  zip_with F (ltab n h) (ltab n g) = ltab n (λ i, F (h i) (g i)).
Proof.
  apply list_eq; intros i. rewrite lookup_zip_with, !lookup_ltab.
  by case_decide.
Qed.

Lemma imap_ltab {A B} (F : nat → A → B) n (h : nat → A) :
  imap F (ltab n h) = ltab n (λ i, F i (h i)).
Proof.
  apply list_eq; intros i. rewrite list_lookup_imap, !lookup_ltab.
  by case_decide.
Qed.

Section tab.
Implicit Types (f g : nat → nat → float) (a : grid).

Lemma tab_ext ny nx f g :
  (∀ i j, (i < ny)%nat → (j < nx)%nat → f i j = g i j) → tab ny nx f = tab ny nx g.
Proof. intros E. apply ltab_ext; intros i ?. apply ltab_ext; auto. Qed.

Lemma rect_tab ny nx f : rect ny nx (tab ny nx f).
Proof.
  split; [apply length_ltab|]. apply Forall_lookup; intros i r.
  unfold tab. rewrite lookup_ltab. case_decide; [|done].
  intros [= <-]. apply length_ltab.
Qed.

Lemma rect_is_tab ny nx a : rect ny nx a → a = tab ny nx (val a).
Proof.
  intros [Hny Hnx]. rewrite (ltab_lookup_total a) at 1. rewrite Hny.
  apply ltab_ext; intros i Hi.
  rewrite (ltab_lookup_total (a !!! i)) at 1. f_equal.
  rewrite Forall_lookup in Hnx. apply (Hnx i).
  apply list_lookup_lookup_total_lt. lia.
Qed.

Lemma val_tab ny nx f i j : (i < ny)%nat → (j < nx)%nat → val (tab ny nx f) i j = f i j.
Proof. intros. unfold val, tab. by rewrite !lookup_total_ltab. Qed.

Lemma cell_tab ny nx f i j :
  cell (tab ny nx f) i j = if decide (i < ny ∧ j < nx)%nat then Some (f i j) else None.
Proof.
  unfold cell, tab. rewrite lookup_ltab.
  case_decide; simpl; [rewrite lookup_ltab|]; repeat case_decide; done || lia.
Qed.

Lemma length_tab ny nx f : length (tab ny nx f) = ny.
Proof. apply length_ltab. Qed.

Lemma nrows_tab ny nx f : nrows (tab ny nx f) = ny.
Proof. apply length_ltab. Qed.

Lemma ncols_tab ny nx f : (0 < ny)%nat → ncols (tab ny nx f) = nx.
Proof.
  intros. unfold ncols, tab. rewrite head_ltab. case_decide; [|lia].
  apply length_ltab.
Qed.

Lemma zeros_tab ny nx : zeros ny nx = tab ny nx (λ _ _, 0%float).
Proof. unfold zeros, tab. rewrite replicate_ltab. by rewrite (replicate_ltab nx). Qed.

Lemma rect_zeros ny nx : rect ny nx (zeros ny nx).
Proof. rewrite zeros_tab. apply rect_tab. Qed.

End tab.

(** An array of shape [(ny, nx)] is the table of its cells. *)
Ltac as_tab p H :=
  let v := fresh "cells" in
  set (v := val p) in *; rewrite (rect_is_tab _ _ p H); change (val p) with v; clearbody v.

(** Case analysis on the conditions of a closed form, and equality of two
    tables cell by cell. *)
Ltac tab_cases :=
  unfold interior in *; repeat case_decide; subst;
  try done; try (exfalso; lia); try (f_equal; lia).

Ltac tab_eq := apply tab_ext; intros ?i ?j ? ?; cbv zeta; tab_cases.

(** A step of the error monad whose first action returned. *)
Ltac ok_bind := change (Ok ?a ≫= ?k) with (k a); cbv beta iota.

Lemma rect_3_3 (a b c d e f g h i : float) : rect 3 3 [[a; b; c]; [d; e; f]; [g; h; i]].
Proof. split; [done|]. by repeat constructor. Qed.

Lemma on_interior_in ny nx new old i j :
  interior ny nx i j → on_interior ny nx new old i j = new i j.
Proof. intros. unfold on_interior. by rewrite decide_True. Qed.

Lemma on_interior_out ny nx new old i j :
  ¬ interior ny nx i j → on_interior ny nx new old i j = old i j.
Proof. intros. unfold on_interior. by rewrite decide_False. Qed.

(** ** Python indices and [for] loops *)

Lemma py_index_nat n i : (i < n)%nat → py_index n (Z.of_nat i) = Ok i.
Proof.
  intros. unfold py_index. rewrite bool_decide_eq_true_2 by lia.
  by rewrite Nat2Z.id.
Qed.

Lemma py_index_neg n k : (0 < k ≤ n)%nat → py_index n (- Z.of_nat k) = Ok (n - k)%nat.
Proof.
  intros. unfold py_index. rewrite bool_decide_eq_false_2 by lia.
  rewrite bool_decide_eq_true_2 by lia. f_equal. lia.
Qed.

Lemma py_index_Ok n k i : py_index n k = Ok i → (i < n)%nat.
Proof.
  unfold py_index. repeat case_bool_decide; intros [= <-]; lia.
Qed.

Lemma py_index_0 n : (0 < n)%nat → py_index n 0 = Ok 0%nat.
Proof. apply (py_index_nat n 0). Qed.

Lemma py_index_1 n : (1 < n)%nat → py_index n 1 = Ok 1%nat.
Proof. apply (py_index_nat n 1). Qed.

Lemma py_index_m1 n : (0 < n)%nat → py_index n (-1) = Ok (n - 1)%nat.
Proof. intros. apply (py_index_neg n 1). lia. Qed.

Lemma py_index_m2 n : (1 < n)%nat → py_index n (-2) = Ok (n - 2)%nat.
Proof. intros. apply (py_index_neg n 2). lia. Qed.

Lemma for_each_seq {S} (Inv : nat → S → Prop) lo body : ∀ n a s,
  Inv a s →
  (∀ k s, (a ≤ k < a + n)%nat → Inv k s →
          ∃ s', body (Z.of_nat k + lo) s = Ok s' ∧ Inv (Datatypes.S k) s') →
  ∃ s', for_each ((λ i : nat, Z.of_nat i + lo) <$> seq a n) body s = Ok s'
        ∧ Inv (a + n)%nat s'.
Proof.
  induction n as [|n IH]; intros a s H0 Hstep.
  - exists s. by rewrite Nat.add_0_r.
  - change (seq a (Datatypes.S n)) with (a :: seq (Datatypes.S a) n).
    rewrite fmap_cons. unfold for_each; fold (@for_each S).
    destruct (Hstep a s) as (s1 & -> & H1); [lia | done |].
    change (Ok s1 ≫= ?f) with (f s1).
    destruct (IH (Datatypes.S a) s1) as (s2 & -> & H2); [done | |].
    + intros k s' ? ?. apply Hstep; [lia | done].
    + exists s2. split; [done|]. by rewrite Nat.add_succ_r.
Qed.

Lemma for_each_range {S} (Inv : nat → S → Prop) lo len body s :
  Inv 0%nat s →
  (∀ k s, (k < len)%nat → Inv k s →
          ∃ s', body (lo + Z.of_nat k) s = Ok s' ∧ Inv (Datatypes.S k) s') →
  ∃ s', for_each (range lo (lo + Z.of_nat len)) body s = Ok s' ∧ Inv len s'.
Proof.
  intros H0 Hstep. unfold range, seqZ.
  replace (Z.to_nat (lo + Z.of_nat len - lo)) with len by lia.
  apply (for_each_seq Inv lo body len 0%nat s H0).
  intros k s' ? ?. rewrite Z.add_comm. apply Hstep; [lia | done].
Qed.

Lemma range_empty lo hi : hi ≤ lo → range lo hi = [].
Proof. intros. unfold range, seqZ. by replace (Z.to_nat (hi - lo)) with 0%nat by lia. Qed.

Lemma range_inner n : range 1 (Z.of_nat n - 1) = range 1 (1 + Z.of_nat (n - 2)).
Proof. unfold range, seqZ. do 2 f_equal. lia. Qed.

(** ** binary64 arithmetic *)

Lemma float_neq (x y : float) : Prim2SF x ≠ Prim2SF y → x ≠ y.
Proof. by intros H ->. Qed.

Lemma SFcompare_antisym a b c :
  SFcompare a b = Some c → SFcompare b a = Some (CompOpp c).
Proof.
  destruct a as [s1|s1| |s1 m1 e1], b as [s2|s2| |s2 m2 e2]; simpl;
    try done; try (by intros [= <-]; repeat case_match).
  intros [= <-]. f_equal.
  rewrite (Z.compare_antisym e1 e2).
  assert (Pos.compare_cont Eq m2 m1 = CompOpp (Pos.compare_cont Eq m1 m2)) as ->
    by (symmetry; apply (Pos.compare_cont_antisym m1 m2 Eq)).
  destruct s1, s2; simpl; try done; by destruct (e1 ?= e2)%Z, (Pos.compare_cont Eq m1 m2).
Qed.

(** A value at or below the tolerance is not above it. *)
Lemma leb_not_gtb (x y : float) : (x <=? y)%float = true → (y <? x)%float = false.
Proof.
  rewrite leb_spec, ltb_spec. unfold SFleb, SFltb.
  destruct (SFcompare (Prim2SF x) (Prim2SF y)) as [c|] eqn:E; [|done].
  rewrite (SFcompare_antisym _ _ _ E). by destruct c.
Qed.

Section zeros.
Local Open Scope float_scope.
Implicit Types x y c d : float.

Lemma is_zero_spec x : is_zero x = true ↔ is_sf_zero (Prim2SF x).
Proof.
  unfold is_zero, is_sf_zero. rewrite eqb_spec.
  change (Prim2SF zero) with (S754_zero false).
  destruct (Prim2SF x) as [s|s| |s m e]; simpl.
  - split; eauto.
  - split; [by destruct s | by intros [? ?]].
  - split; [done | by intros [? ?]].
  - unfold SFeqb; simpl. split; [by destruct s | by intros [? ?]].
Qed.

Lemma is_finite_spec x :
  is_finite x = true → is_sf_zero (Prim2SF x) ∨ ∃ s m e, Prim2SF x = S754_finite s m e.
Proof.
  unfold is_finite, is_nan, is_infinity. rewrite !eqb_spec, abs_spec.
  change (Prim2SF infinity) with (S754_infinity false).
  destruct (Prim2SF x) as [s|s| |s m e]; simpl.
  - intros _. left. by exists s.
  - by destruct s.
  - done.
  - intros _. right. eauto.
Qed.

Lemma zero_sub x y :
  is_sf_zero (Prim2SF x) → is_sf_zero (Prim2SF y) → is_sf_zero (Prim2SF (x - y)).
Proof.
  intros [sx Hx] [sy Hy]. rewrite sub_spec, Hx, Hy.
  destruct sx, sy; simpl; by eexists.
Qed.

Lemma zero_mul c y :
  is_finite c = true → is_sf_zero (Prim2SF y) → is_sf_zero (Prim2SF (c * y)).
Proof.
  intros Hc [sy Hy]. rewrite mul_spec, Hy.
  destruct (is_finite_spec c Hc) as [[s ->]|(s & m & e & ->)]; simpl; by eexists.
Qed.

Lemma zero_div x d :
  is_sf_zero (Prim2SF x) → is_finite (2 / d) = true → is_sf_zero (Prim2SF (x / d)).
Proof.
  intros [sx Hx] Hd. apply is_finite_spec in Hd. rewrite div_spec in *. rewrite Hx.
  change (Prim2SF 2) with (S754_finite false 4503599627370496 (-51)) in Hd.
  destruct (Prim2SF d) as [s|s| |s m e]; simpl in *.
  - destruct Hd as [[? ?]|(? & ? & ? & ?)]; done.
  - by eexists.
  - destruct Hd as [[? ?]|(? & ? & ? & ?)]; done.
  - by eexists.
Qed.

End zeros.

(** ** numpy operations on tabulated arrays *)

Section np_tab.
Implicit Types (f g : nat → nat → float).

Lemma fmap_tab_rows (F : list float → list float) ny nx nx' f g :
  (∀ i, (i < ny)%nat → F (ltab nx (f i)) = ltab nx' (g i)) →
  F <$> tab ny nx f = tab ny nx' g.
Proof. intros E. unfold tab. rewrite fmap_ltab. apply ltab_ext. auto. Qed.

Lemma sl_in_in_tab ny nx f :
  Np.sl_in_in (tab ny nx f) = tab (ny - 2) (nx - 2) (λ a c, f (1 + a) (1 + c))%nat.
Proof.
  unfold Np.sl_in_in, tab. rewrite inner_ltab, fmap_ltab.
  apply ltab_ext; intros. apply inner_ltab.
Qed.

Lemma sl_in_hi_tab ny nx f :
  Np.sl_in_hi (tab ny nx f) = tab (ny - 2) (nx - 2) (λ a c, f (1 + a) (2 + c))%nat.
Proof.
  unfold Np.sl_in_hi, tab. rewrite inner_ltab, fmap_ltab.
  apply ltab_ext; intros. apply from2_ltab.
Qed.

Lemma sl_in_lo_tab ny nx f :
  Np.sl_in_lo (tab ny nx f) = tab (ny - 2) (nx - 2) (λ a c, f (1 + a) c)%nat.
Proof.
  unfold Np.sl_in_lo, tab. rewrite inner_ltab, fmap_ltab.
  apply ltab_ext; intros. apply upto_m2_ltab.
Qed.

Lemma sl_hi_in_tab ny nx f :
  Np.sl_hi_in (tab ny nx f) = tab (ny - 2) (nx - 2) (λ a c, f (2 + a) (1 + c))%nat.
Proof.
  unfold Np.sl_hi_in, tab. rewrite from2_ltab, fmap_ltab.
  apply ltab_ext; intros. apply inner_ltab.
Qed.

Lemma sl_lo_in_tab ny nx f :
  Np.sl_lo_in (tab ny nx f) = tab (ny - 2) (nx - 2) (λ a c, f a (1 + c))%nat.
Proof.
  unfold Np.sl_lo_in, tab. rewrite upto_m2_ltab, fmap_ltab.
  apply ltab_ext; intros. apply inner_ltab.
Qed.

Lemma shape_tab ny nx f : length <$> tab ny nx f = replicate ny nx.
Proof.
  unfold tab. rewrite fmap_ltab, replicate_ltab.
  apply ltab_ext; intros. apply length_ltab.
Qed.

Lemma same_shape_tab ny nx f g : Np.same_shape (tab ny nx f) (tab ny nx g) = true.
Proof. unfold Np.same_shape. by rewrite !shape_tab, bool_decide_eq_true_2. Qed.

Lemma zip2_tab op ny nx f g :
  Np.zip2 op (tab ny nx f) (tab ny nx g) = tab ny nx (λ i j, op (f i j) (g i j)).
Proof.
  unfold Np.zip2, tab. rewrite zip_with_ltab.
  apply ltab_ext; intros. apply zip_with_ltab.
Qed.

Lemma binop_tab op ny nx f g :
  Np.binop op (tab ny nx f) (tab ny nx g) = Ok (tab ny nx (λ i j, op (f i j) (g i j))).
Proof. unfold Np.binop. by rewrite same_shape_tab, zip2_tab. Qed.

Lemma add_tab ny nx f g :
  Np.add (tab ny nx f) (tab ny nx g) = Ok (tab ny nx (λ i j, f i j + g i j)%float).
Proof. apply binop_tab. Qed.

Lemma sub_tab ny nx f g :
  Np.sub (tab ny nx f) (tab ny nx g) = Ok (tab ny nx (λ i j, f i j - g i j)%float).
Proof. apply binop_tab. Qed.

Lemma mul_tab ny nx f g :
  Np.mul (tab ny nx f) (tab ny nx g) = Ok (tab ny nx (λ i j, f i j * g i j)%float).
Proof. apply binop_tab. Qed.

Lemma map1_tab h ny nx f : Np.map1 h (tab ny nx f) = tab ny nx (λ i j, h (f i j)).
Proof.
  unfold Np.map1, tab. rewrite fmap_ltab.
  apply ltab_ext; intros. apply fmap_ltab.
Qed.

Lemma scale_tab c ny nx f : Np.scale c (tab ny nx f) = tab ny nx (λ i j, c * f i j)%float.
Proof. apply map1_tab. Qed.

Lemma over_tab c ny nx f : Np.over (tab ny nx f) c = tab ny nx (λ i j, f i j / c)%float.
Proof. apply map1_tab. Qed.

Lemma square_tab ny nx f : Np.square (tab ny nx f) = tab ny nx (λ i j, f i j * f i j)%float.
Proof. apply map1_tab. Qed.

Lemma set_inner_tab ny nx f v :
  Np.set_inner (tab ny nx f) (tab (ny - 2) (nx - 2) v) =
  Ok (tab ny nx (λ i j, if decide (interior ny nx i j) then v (i - 1)%nat (j - 1)%nat else f i j)).
Proof.
  unfold Np.set_inner. rewrite sl_in_in_tab, same_shape_tab. f_equal.
  unfold tab. rewrite imap_ltab, length_ltab. apply ltab_ext; intros i Hi.
  unfold Np.is_inner. case_bool_decide as Hr.
  - rewrite imap_ltab, length_ltab. apply ltab_ext; intros j Hj.
    case_bool_decide as Hc.
    + fold (tab (ny - 2) (nx - 2) v). rewrite cell_tab, decide_True by lia; simpl.
      by rewrite decide_True by (unfold interior; lia).
    + by rewrite decide_False by (unfold interior; lia).
  - apply ltab_ext; intros j Hj.
    by rewrite decide_False by (unfold interior; lia).
Qed.

Lemma get_col_tab ny nx f k j :
  (0 < ny)%nat → py_index nx k = Ok j →
  Np.get_col (tab ny nx f) k = Ok (ltab ny (λ i, f i j)).
Proof.
  intros Hny Hk. unfold Np.get_col. rewrite ncols_tab, Hk by done; simpl.
  f_equal. unfold tab. rewrite fmap_ltab. apply ltab_ext; intros i Hi.
  apply lookup_total_ltab. by eapply py_index_Ok.
Qed.

Lemma set_col_tab ny nx f k j c :
  (0 < ny)%nat → py_index nx k = Ok j →
  Np.set_col (tab ny nx f) k (ltab ny c) =
  Ok (tab ny nx (λ i j', if decide (j' = j) then c i else f i j')).
Proof.
  intros Hny Hk. unfold Np.set_col. rewrite ncols_tab, Hk by done; simpl.
  rewrite length_ltab, length_tab, bool_decide_eq_true_2 by done. f_equal.
  unfold tab. rewrite zip_with_ltab. apply ltab_ext; intros i Hi.
  apply insert_ltab.
Qed.

Lemma fill_col_tab ny nx f k j x :
  (0 < ny)%nat → py_index nx k = Ok j →
  Np.fill_col (tab ny nx f) k x =
  Ok (tab ny nx (λ i j', if decide (j' = j) then x else f i j')).
Proof.
  intros Hny Hk. unfold Np.fill_col. rewrite ncols_tab, Hk by done; simpl.
  f_equal. unfold tab. rewrite fmap_ltab. apply ltab_ext; intros i Hi.
  apply insert_ltab.
Qed.

Lemma get_row_tab ny nx f k i :
  py_index ny k = Ok i → Np.get_row (tab ny nx f) k = Ok (ltab nx (f i)).
Proof.
  intros Hk. unfold Np.get_row. rewrite nrows_tab, Hk; simpl. f_equal.
  unfold tab. rewrite lookup_total_ltab; [done|]. by eapply py_index_Ok.
Qed.

Lemma set_row_tab ny nx f k i r :
  py_index ny k = Ok i →
  Np.set_row (tab ny nx f) k (ltab nx r) =
  Ok (tab ny nx (λ i' j, if decide (i' = i) then r j else f i' j)).
Proof.
  intros Hk. unfold Np.set_row. rewrite nrows_tab, Hk; simpl.
  assert (0 < ny)%nat by (apply py_index_Ok in Hk; lia).
  rewrite length_ltab, ncols_tab, bool_decide_eq_true_2 by done. f_equal.
  unfold tab. rewrite insert_ltab. apply ltab_ext; intros i' Hi'.
  by case_decide.
Qed.

Lemma fill_row_tab ny nx f k i x :
  py_index ny k = Ok i →
  Np.fill_row (tab ny nx f) k x =
  Ok (tab ny nx (λ i' j, if decide (i' = i) then x else f i' j)).
Proof.
  intros Hk. unfold Np.fill_row. rewrite nrows_tab, Hk; simpl.
  assert (0 < ny)%nat by (apply py_index_Ok in Hk; lia).
  rewrite ncols_tab by done. f_equal.
  unfold tab. rewrite insert_ltab. apply ltab_ext; intros i' Hi'.
  case_decide; [apply replicate_ltab | done].
Qed.

Lemma getitem_tab ny nx f i j i' j' :
  py_index ny i = Ok i' → py_index nx j = Ok j' →
  getitem (tab ny nx f) i j = Ok (f i' j').
Proof.
  intros Hi Hj. unfold getitem. rewrite nrows_tab, Hi; simpl.
  pose proof (py_index_Ok _ _ _ Hi). pose proof (py_index_Ok _ _ _ Hj).
  rewrite ncols_tab, Hj by lia; simpl. f_equal. by apply val_tab.
Qed.

Lemma setitem_tab ny nx f i j i' j' x :
  py_index ny i = Ok i' → py_index nx j = Ok j' →
  setitem (tab ny nx f) i j x =
  Ok (tab ny nx (λ a c, if decide (a = i' ∧ c = j') then x else f a c)).
Proof.
  intros Hi Hj. unfold setitem. rewrite nrows_tab, Hi; simpl.
  pose proof (py_index_Ok _ _ _ Hi). pose proof (py_index_Ok _ _ _ Hj).
  rewrite ncols_tab, Hj by lia; simpl. f_equal.
  unfold tab. rewrite alter_ltab. apply ltab_ext; intros a Ha.
  case_decide as Ea.
  - rewrite insert_ltab. apply ltab_ext; intros c Hc.
    destruct (decide (c = j')).
    + by rewrite decide_True.
    + rewrite decide_False; [done|]. by intros [].
  - apply ltab_ext; intros c Hc. rewrite decide_False; [done|]. by intros [].
Qed.

End np_tab.

(** A slice assignment, whatever is assigned, keeps the shape and the ring. *)
Lemma set_inner_ring ny nx f v g' :
  Np.set_inner (tab ny nx f) v = Ok g' →
  ∃ w, g' = tab ny nx (on_interior ny nx w f).
Proof.
  unfold Np.set_inner. destruct (Np.same_shape _ _); [|done]. intros [= <-].
  exists (λ i j, default (f i j) (cell v (i - 1) (j - 1))).
  unfold tab. rewrite imap_ltab, length_ltab. apply ltab_ext; intros i Hi.
  unfold Np.is_inner, on_interior, interior. case_bool_decide as Hr.
  - rewrite imap_ltab, length_ltab. apply ltab_ext; intros j Hj.
    case_bool_decide; [by rewrite decide_True by lia | by rewrite decide_False by lia].
  - apply ltab_ext; intros j Hj. by rewrite decide_False by lia.
Qed.

(** The convergence test never fails on two arrays of one shape, and it
    divides whatever the denominator is. *)
Lemma l2_diff_tab k ny nx p pn :
  l2_diff k (tab ny nx p) (tab ny nx pn) =
  let num := Np.sum (Np.square (tab ny nx (λ i j, p i j - pn i j)%float)) in
  let den := Np.sum (Np.square (tab ny nx pn)) in
  Ok (Check k num den (PrimFloat.sqrt (num / den))).
Proof. unfold l2_diff. rewrite sub_tab. done. Qed.

(** ** 05.0.A: [pressure_poisson] *)

Lemma numpy_relaxed_tab ny nx pn b :
  Numpy.relaxed (tab ny nx pn) (tab ny nx b) =
  Ok (tab (ny - 2) (nx - 2) (λ a c, stencil pn b (1 + a) (1 + c))%nat).
Proof.
  unfold Numpy.relaxed.
  rewrite sl_in_hi_tab, sl_in_lo_tab, sl_hi_in_tab, sl_lo_in_tab, sl_in_in_tab.
  rewrite add_tab; cbn. rewrite add_tab; cbn. rewrite add_tab; cbn.
  rewrite scale_tab, sub_tab. f_equal. apply tab_ext; intros a c _ _.
  unfold stencil. repeat f_equal; lia.
Qed.

Lemma numpy_relax_tab ny nx pn b p :
  Numpy.relax (tab ny nx pn) (tab ny nx b) (tab ny nx p) =
  Ok (tab ny nx (on_interior ny nx (stencil pn b) p)).
Proof.
  unfold Numpy.relax. rewrite numpy_relaxed_tab; cbn. rewrite set_inner_tab.
  f_equal. apply tab_ext; intros i j _ _. unfold on_interior.
  case_decide as H; [|done]. unfold interior in H. f_equal; lia.
Qed.

Lemma numpy_boundary_tab ny nx f :
  (2 ≤ ny)%nat → (2 ≤ nx)%nat →
  Numpy.boundary (tab ny nx f) = Ok (tab ny nx (numpy_bc ny nx f)).
Proof.
  intros Hy Hx. unfold Numpy.boundary.
  rewrite (get_col_tab _ _ _ _ 1%nat) by (lia || (apply py_index_1; lia)); cbn.
  rewrite (set_col_tab _ _ _ _ 0%nat) by (lia || (apply py_index_0; lia)); cbn.
  rewrite (get_col_tab _ _ _ _ (nx - 2)%nat) by (lia || (apply py_index_m2; lia)); cbn.
  rewrite (set_col_tab _ _ _ _ (nx - 1)%nat) by (lia || (apply py_index_m1; lia)); cbn.
  rewrite (get_row_tab _ _ _ _ 1%nat) by (apply py_index_1; lia); cbn.
  rewrite (set_row_tab _ _ _ _ 0%nat) by (apply py_index_0; lia); cbn.
  rewrite (fill_row_tab _ _ _ _ (ny - 1)%nat) by (apply py_index_m1; lia).
  done.
Qed.

(** The boundary code only writes the outermost ring. *)
Lemma numpy_bc_interior ny nx f i j : interior ny nx i j → numpy_bc ny nx f i j = f i j.
Proof. intros. unfold numpy_bc. tab_cases. Qed.

(** What the boundary code leaves on the ring. *)
Lemma numpy_bc_ring ny nx f i j :
  (2 ≤ ny)%nat → (2 ≤ nx)%nat → (i < ny)%nat → (j < nx)%nat →
  numpy_bc ny nx f i 0%nat = numpy_bc ny nx f i 1%nat ∧
  numpy_bc ny nx f (ny - 1)%nat j = 0%float.
Proof. intros. unfold numpy_bc. split; tab_cases. Qed.

Lemma numpy_sweep_tab ny nx b k p :
  (2 ≤ ny)%nat → (2 ≤ nx)%nat →
  ∃ c, Numpy.sweep (tab ny nx b) k (tab ny nx p) =
         Ok (tab ny nx (numpy_bc ny nx (on_interior ny nx (stencil p b) p)), Some c, false)
       ∧ l2_diff k (tab ny nx (numpy_bc ny nx (on_interior ny nx (stencil p b) p)))
                   (tab ny nx p) = Ok c.
Proof.
  intros Hy Hx. unfold Numpy.sweep.
  rewrite numpy_relax_tab; cbn. rewrite numpy_boundary_tab by done; cbn.
  rewrite l2_diff_tab. cbn. eauto.
Qed.

(** In 05.0.A every sweep makes the convergence test and none reaches
    [break]: the body resets [n] to 0 before testing [n % 10 == 0] and
    [n == 500]. *)
Lemma numpy_sweep_tests_and_never_breaks ny nx (p b : grid) k :
  rect ny nx p → rect ny nx b → (2 ≤ ny)%nat → (2 ≤ nx)%nat →
  ∃ p' c, Numpy.sweep b k p = Ok (p', Some c, false) ∧ at_sweep c = k.
Proof.
  intros Hp Hb Hy Hx. as_tab p Hp; as_tab b Hb.
  destruct (numpy_sweep_tab ny nx cells0 k cells Hy Hx) as (c & -> & Hc).
  eexists _, _. split; [done|].
  rewrite l2_diff_tab in Hc. by injection Hc as <-.
Qed.

(** Every exit of the loop hands back the array the last sweep left, or the
    untouched input when no sweep was made. *)
Lemma numpy_loop_inv ny nx b tol fuel : ∀ p d k log s,
  (2 ≤ ny)%nat → (2 ≤ nx)%nat →
  Numpy.while_loop fuel (tab ny nx b) tol (tab ny nx p) d k log = Ok s →
  (k ≤ sweeps s)%nat ∧
  (∃ more, checks s = log ++ more) ∧
  (sweeps s = k → pressure s = tab ny nx p) ∧
  ((k < sweeps s)%nat → ∃ f, pressure s = tab ny nx (numpy_bc ny nx f)).
Proof.
  induction fuel as [|fuel IH]; intros p d k log s Hy Hx; simpl.
  - destruct (tol <? d)%float; [done|]. intros [= <-]; simpl.
    split_and!; [lia | exists []; by rewrite app_nil_r | done | lia].
  - destruct (tol <? d)%float.
    + destruct (numpy_sweep_tab ny nx b k p Hy Hx) as (c & -> & _); cbn.
      intros H. apply IH in H as (Hk & [more Hl] & Hp & Hf); [|done..].
      split_and!; [lia | | lia |].
      * exists (c :: more). by rewrite Hl, <-app_assoc.
      * intros _. destruct (decide (sweeps s = S k)) as [E|E]; [eauto | apply Hf; lia].
    + intros [= <-]; simpl.
      split_and!; [lia | exists []; by rewrite app_nil_r | done | lia].
Qed.

Lemma numpy_first_sweep ny nx b p tol fuel s :
  (2 ≤ ny)%nat → (2 ≤ nx)%nat → (tol <? tol + 1)%float = true →
  Numpy.pressure_poisson fuel (tab ny nx p) (tab ny nx b) tol = Ok s →
  let p1 := tab ny nx (numpy_bc ny nx (on_interior ny nx (stencil p b) p)) in
  (1 ≤ sweeps s)%nat ∧
  (∃ f, pressure s = tab ny nx (numpy_bc ny nx f)) ∧
  (sweeps s = 1%nat → pressure s = p1) ∧
  ∃ c more, checks s = c :: more ∧ l2_diff 0 p1 (tab ny nx p) = Ok c.
Proof.
  intros Hy Hx Htol. unfold Numpy.pressure_poisson.
  destruct fuel as [|fuel]; simpl; rewrite Htol; [done|].
  destruct (numpy_sweep_tab ny nx b 0%nat p Hy Hx) as (c & -> & Hc); cbn.
  intros H. apply numpy_loop_inv in H as (Hk & [more Hl] & Hp & Hf); [|done..].
  split_and!; [done | | done |].
  - destruct (decide (sweeps s = 1%nat)); [eauto | apply Hf; lia].
  - by exists c, more.
Qed.

(** With fuel for one sweep the call is its first sweep followed by the rest
    of the loop. *)
Lemma numpy_enters_loop ny nx b p tol fuel :
  (2 ≤ ny)%nat → (2 ≤ nx)%nat → (tol <? tol + 1)%float = true →
  let p1 := tab ny nx (numpy_bc ny nx (on_interior ny nx (stencil p b) p)) in
  ∃ c, l2_diff 0 p1 (tab ny nx p) = Ok c ∧
       Numpy.pressure_poisson (S fuel) (tab ny nx p) (tab ny nx b) tol =
       Numpy.while_loop fuel (tab ny nx b) tol p1 (rel_change c) 1 [c].
Proof.
  intros Hy Hx Htol. unfold Numpy.pressure_poisson. simpl. rewrite Htol.
  destruct (numpy_sweep_tab ny nx b 0%nat p Hy Hx) as (c & -> & Hc); cbn.
  by exists c.
Qed.

Lemma numpy_pressure_shape ny nx p b tol fuel s :
  (2 ≤ ny)%nat → (2 ≤ nx)%nat →
  Numpy.pressure_poisson fuel (tab ny nx p) (tab ny nx b) tol = Ok s →
  ∃ f, pressure s = tab ny nx f.
Proof.
  intros Hy Hx H. apply numpy_loop_inv in H as (_ & _ & H0 & H1); [|done..].
  destruct (decide (sweeps s = 0%nat)) as [E|E]; [eauto|].
  destruct H1 as [f ->]; [lia | eauto].
Qed.

(** ** The loop versions of [pressure_poisson] *)

Section jit_sweep.
Variable relaxed : grid → grid → Z → Z → result float.
Variables ny nx : nat.
Variable st : (nat → nat → float) → (nat → nat → float) → nat → nat → float.
Hypothesis relaxed_tab : ∀ pn b i j,
  interior ny nx i j →
  relaxed (tab ny nx pn) (tab ny nx b) (Z.of_nat i) (Z.of_nat j) = Ok (st pn b i j).

Lemma jit_relax_row_tab pn b p r :
  (r < ny - 2)%nat →
  let done_to r c i j :=
    (1 ≤ j ∧ j + 1 < nx ∧ (1 ≤ i < 1 + r ∨ i = 1 + r ∧ j < 1 + c))%nat in
  Jit.relax_row relaxed nx (tab ny nx pn) (tab ny nx b) (1 + Z.of_nat r)
    (tab ny nx (λ i j, if decide (done_to r 0%nat i j) then st pn b i j else p i j)) =
  Ok (tab ny nx (λ i j, if decide (done_to (S r) 0%nat i j) then st pn b i j else p i j)).
Proof.
  intros Hr row. unfold Jit.relax_row. rewrite range_inner.
  edestruct (for_each_range
    (λ c (q : grid),
       q = tab ny nx (λ i j, if decide (row r c i j) then st pn b i j else p i j)))
    as (q & -> & ->); [done | | ].
  - intros c q Hc ->.
    replace (1 + Z.of_nat r) with (Z.of_nat (1 + r)) by lia.
    replace (1 + Z.of_nat c) with (Z.of_nat (1 + c)) by lia.
    rewrite relaxed_tab by (unfold interior; lia).
    ok_bind.
    rewrite (setitem_tab _ _ _ _ _ (1 + r)%nat (1 + c)%nat) by (apply py_index_nat; lia).
    eexists; split; [done|]. unfold row. tab_eq.
  - f_equal. unfold row. tab_eq.
Qed.

Lemma jit_relax_tab pn b p :
  Jit.relax relaxed ny nx (tab ny nx pn) (tab ny nx b) (tab ny nx p) =
  Ok (tab ny nx (on_interior ny nx (st pn b) p)).
Proof.
  unfold Jit.relax. rewrite range_inner.
  pose (row r c i j := (1 ≤ j ∧ j + 1 < nx ∧ (1 ≤ i < 1 + r ∨ i = 1 + r ∧ j < 1 + c))%nat).
  edestruct (for_each_range
    (λ r (q : grid),
       q = tab ny nx (λ i j, if decide (row r 0%nat i j) then st pn b i j else p i j)))
    as (q & -> & ->); [ | | ].
  - unfold row. tab_eq.
  - intros r q Hr ->. unfold row.
    pose proof (jit_relax_row_tab pn b p r Hr) as E. cbv zeta in E. rewrite E. eauto.
  - f_equal. unfold row, on_interior. tab_eq.
Qed.

Lemma jit_boundary_rows_tab f :
  (2 ≤ nx)%nat →
  for_each (range 0 (Z.of_nat ny))
    (λ i p, x ← getitem p i 1; p ← setitem p i 0 x; setitem p i (-1) 0)
    (tab ny nx f) =
  Ok (tab ny nx (jit_bc_rows nx f)).
Proof.
  intros Hx. change (Z.of_nat ny) with (0 + Z.of_nat ny).
  edestruct (for_each_range
    (λ k (q : grid),
       q = tab ny nx (λ i j, if decide (i < k)%nat then jit_bc_rows nx f i j else f i j)))
    as (q & -> & ->); [ | | ].
  - tab_eq.
  - intros k q Hk ->. change (0 + Z.of_nat k) with (Z.of_nat k).
    rewrite (getitem_tab _ _ _ _ _ k 1%nat) by (apply py_index_nat || apply py_index_1; lia).
    ok_bind.
    rewrite (setitem_tab _ _ _ _ _ k 0%nat) by (apply py_index_nat || apply py_index_0; lia).
    ok_bind.
    rewrite (setitem_tab _ _ _ _ _ k (nx - 1)%nat) by (apply py_index_nat || apply py_index_m1; lia).
    eexists; split; [done|]. unfold jit_bc_rows. tab_eq.
  - f_equal. tab_eq.
Qed.

Lemma jit_boundary_cols_tab f :
  (2 ≤ ny)%nat →
  for_each (range 0 (Z.of_nat nx))
    (λ j p, x ← getitem p 1 j; p ← setitem p 0 j x;
            x ← getitem p (-2) j; setitem p (-1) j x)
    (tab ny nx f) =
  Ok (tab ny nx (jit_bc_cols ny f)).
Proof.
  intros Hy. change (Z.of_nat nx) with (0 + Z.of_nat nx).
  edestruct (for_each_range
    (λ k (q : grid),
       q = tab ny nx (λ i j, if decide (j < k)%nat then jit_bc_cols ny f i j else f i j)))
    as (q & -> & ->); [ | | ].
  - tab_eq.
  - intros k q Hk ->. change (0 + Z.of_nat k) with (Z.of_nat k).
    rewrite (getitem_tab _ _ _ _ _ 1%nat k) by (apply py_index_nat || apply py_index_1; lia).
    ok_bind.
    rewrite (setitem_tab _ _ _ _ _ 0%nat k) by (apply py_index_nat || apply py_index_0; lia).
    ok_bind.
    rewrite (getitem_tab _ _ _ _ _ (ny - 2)%nat k) by (apply py_index_nat || apply py_index_m2; lia).
    ok_bind.
    rewrite (setitem_tab _ _ _ _ _ (ny - 1)%nat k) by (apply py_index_nat || apply py_index_m1; lia).
    eexists; split; [done|]. unfold jit_bc_cols. tab_eq.
  - f_equal. tab_eq.
Qed.

Lemma jit_boundary_tab f :
  (2 ≤ ny)%nat → (2 ≤ nx)%nat →
  Jit.boundary ny nx (tab ny nx f) = Ok (tab ny nx (jit_bc ny nx f)).
Proof.
  intros Hy Hx. unfold Jit.boundary. rewrite jit_boundary_rows_tab by done.
  ok_bind. by rewrite jit_boundary_cols_tab.
Qed.

Lemma jit_sweep_tab b n p :
  (2 ≤ ny)%nat → (2 ≤ nx)%nat →
  let p' := tab ny nx (jit_bc ny nx (on_interior ny nx (st p b) p)) in
  ∃ c, Jit.sweep relaxed ny nx (tab ny nx b) n (tab ny nx p) = Ok (p', c)
       ∧ c = (if bool_decide (n `mod` 10 = 0)%nat
              then match l2_diff n p' (tab ny nx p) with Ok c => Some c | _ => None end
              else None)
       ∧ (is_Some c ↔ (n `mod` 10 = 0)%nat).
Proof.
  intros Hy Hx p'. unfold Jit.sweep.
  rewrite jit_relax_tab. ok_bind.
  rewrite jit_boundary_tab by done. ok_bind.
  fold p'. unfold p' at 2 4. rewrite l2_diff_tab. cbv zeta.
  case_bool_decide; cbn; eexists; split_and!; done.
Qed.

Lemma jit_loop_inv b tol fuel : ∀ p d n log s,
  (2 ≤ ny)%nat → (2 ≤ nx)%nat →
  Jit.while_loop relaxed fuel ny nx (tab ny nx b) tol (tab ny nx p) d n log = Ok s →
  (n ≤ sweeps s)%nat ∧
  (∃ more, checks s = log ++ more) ∧
  (sweeps s = n → pressure s = tab ny nx p) ∧
  ((n < sweeps s)%nat → ∃ f, pressure s = tab ny nx (jit_bc ny nx f)).
Proof.
  induction fuel as [|fuel IH]; intros p d n log s Hy Hx; simpl.
  - destruct (_ && _); [done|]. intros [= <-]; simpl.
    split_and!; [lia | exists []; by rewrite app_nil_r | done | lia].
  - destruct (_ && _).
    + destruct (jit_sweep_tab b n p Hy Hx) as (c & -> & _).
      ok_bind.
      intros H. apply IH in H as (Hk & [more Hl] & Hp & Hf); [|done..].
      split_and!; [lia | | lia |].
      * exists (option_list c ++ more). by rewrite Hl, <-app_assoc.
      * intros _. destruct (decide (sweeps s = S n)) as [E|E]; [eauto | apply Hf; lia].
    + intros [= <-]; simpl.
      split_and!; [lia | exists []; by rewrite app_nil_r | done | lia].
Qed.

(** The counter [n] bounds the loop: 501 sweeps of fuel are always enough. *)
Lemma jit_loop_returns b tol fuel : ∀ p d n log,
  (2 ≤ ny)%nat → (2 ≤ nx)%nat → (501 ≤ n + fuel)%nat →
  ∃ s, Jit.while_loop relaxed fuel ny nx (tab ny nx b) tol (tab ny nx p) d n log = Ok s
       ∧ (sweeps s ≤ Nat.max n 501)%nat.
Proof.
  induction fuel as [|fuel IH]; intros p d n log Hy Hx Hn; simpl.
  - rewrite (bool_decide_eq_false_2 (n ≤ 500)%nat) by lia.
    rewrite andb_false_r. eexists; split; [done|]. simpl; lia.
  - destruct (tol <? d)%float; simpl; [|eexists; split; [done | simpl; lia]].
    case_bool_decide; [|eexists; split; [done | simpl; lia]].
    destruct (jit_sweep_tab b n p Hy Hx) as (c & -> & _).
    ok_bind.
    edestruct IH as (s & -> & Hs); [done | done | | eexists; split; [done|]]; lia.
Qed.

Lemma jit_pressure_poisson_returns b p tol fuel :
  (2 ≤ ny)%nat → (2 ≤ nx)%nat → (501 ≤ fuel)%nat →
  ∃ s, Jit.pressure_poisson relaxed fuel (tab ny nx p) (tab ny nx b) tol = Ok s
       ∧ (sweeps s ≤ 501)%nat.
Proof.
  intros Hy Hx Hf. unfold Jit.pressure_poisson.
  rewrite nrows_tab, ncols_tab by lia.
  destruct (jit_loop_returns b tol fuel p (tol + 1)%float 0%nat [] Hy Hx) as (s & Hs & ?);
    [lia|]. exists s. split; [done | lia].
Qed.

Lemma jit_first_sweep b p tol fuel s :
  (2 ≤ ny)%nat → (2 ≤ nx)%nat → (tol <? tol + 1)%float = true →
  Jit.pressure_poisson relaxed fuel (tab ny nx p) (tab ny nx b) tol = Ok s →
  let p1 := tab ny nx (jit_bc ny nx (on_interior ny nx (st p b) p)) in
  (1 ≤ sweeps s)%nat ∧
  (∃ f, pressure s = tab ny nx (jit_bc ny nx f)) ∧
  (sweeps s = 1%nat → pressure s = p1) ∧
  ∃ c more, checks s = c :: more ∧ l2_diff 0 p1 (tab ny nx p) = Ok c.
Proof.
  intros Hy Hx Htol. unfold Jit.pressure_poisson.
  rewrite nrows_tab, ncols_tab by lia. destruct fuel as [|fuel]; simpl; rewrite Htol; [done|].
  destruct (jit_sweep_tab b 0%nat p Hy Hx) as (c & -> & Hc & _).
  ok_bind.
  rewrite l2_diff_tab in Hc; cbv zeta in Hc; simpl in Hc. subst c.
  intros H. apply jit_loop_inv in H as (Hk & [more Hl] & Hp & Hf); [|done..].
  split_and!; [done | | done |].
  - destruct (decide (sweeps s = 1%nat)); [eauto | apply Hf; lia].
  - eexists _, more. split; [exact Hl|]. by rewrite l2_diff_tab.
Qed.

Lemma jit_enters_loop b p tol fuel :
  (2 ≤ ny)%nat → (2 ≤ nx)%nat → (tol <? tol + 1)%float = true →
  let p1 := tab ny nx (jit_bc ny nx (on_interior ny nx (st p b) p)) in
  ∃ c, l2_diff 0 p1 (tab ny nx p) = Ok c ∧
       Jit.pressure_poisson relaxed (S fuel) (tab ny nx p) (tab ny nx b) tol =
       Jit.while_loop relaxed fuel ny nx (tab ny nx b) tol p1 (rel_change c) 1 [c].
Proof.
  intros Hy Hx Htol. unfold Jit.pressure_poisson.
  rewrite nrows_tab, ncols_tab by lia. simpl. rewrite Htol.
  destruct (jit_sweep_tab b 0%nat p Hy Hx) as (c & -> & Hc & _).
  ok_bind. rewrite l2_diff_tab in Hc |- *; cbv zeta in *; simpl in Hc. subst c.
  eexists. split; [done|]. done.
Qed.

(** The test is made in the sweeps whose number is a multiple of 10, and in
    no other. *)
Lemma jit_loop_checks b tol fuel : ∀ p d n log s,
  (2 ≤ ny)%nat → (2 ≤ nx)%nat →
  Jit.while_loop relaxed fuel ny nx (tab ny nx b) tol (tab ny nx p) d n log = Ok s →
  at_sweep <$> checks s =
  (at_sweep <$> log) ++ filter (λ k, k `mod` 10 = 0)%nat (seq n (sweeps s - n)).
Proof.
  induction fuel as [|fuel IH]; intros p d n log s Hy Hx; simpl.
  - destruct (_ && _); [done|]. intros [= <-]; simpl.
    by rewrite Nat.sub_diag, app_nil_r.
  - destruct (_ && _).
    + destruct (jit_sweep_tab b n p Hy Hx) as (c & -> & Hc & _).
      ok_bind. intros H.
      pose proof (jit_loop_inv _ _ _ _ _ _ _ _ Hy Hx H) as (Hn & _).
      apply IH in H; [|done..]. rewrite H, fmap_app, <-app_assoc. f_equal.
      replace (sweeps s - n)%nat with (S (sweeps s - S n)) by lia.
      rewrite <-cons_seq, filter_cons. rewrite l2_diff_tab in Hc. cbv zeta in Hc.
      subst c. case_bool_decide; by case_decide.
    + intros [= <-]; simpl. by rewrite Nat.sub_diag, app_nil_r.
Qed.

(** The loop is left right after the first test that comes out at or below
    the tolerance. *)
Lemma jit_loop_stops b tol fuel : ∀ p d n log s more c,
  (2 ≤ ny)%nat → (2 ≤ nx)%nat →
  Jit.while_loop relaxed fuel ny nx (tab ny nx b) tol (tab ny nx p) d n log = Ok s →
  checks s = log ++ more → c ∈ more → (rel_change c <=? tol)%float = true →
  sweeps s = S (at_sweep c).
Proof.
  induction fuel as [|fuel IH]; intros p d n log s more c Hy Hx; simpl.
  - destruct (_ && _); [done|]. intros [= <-]; simpl.
    intros E%(f_equal length). rewrite length_app in E.
    destruct more; [by intros ?%elem_of_nil | simpl in E; lia].
  - destruct (_ && _).
    + destruct (jit_sweep_tab b n p Hy Hx) as (c' & -> & Hc & _).
      ok_bind. intros H Hl Hin Hle.
      pose proof (jit_loop_inv _ _ _ _ _ _ _ _ Hy Hx H) as (_ & [more' Hl'] & _).
      rewrite Hl', <-app_assoc in Hl. apply app_inv_head in Hl as <-.
      apply elem_of_app in Hin as [Hin|Hin]; [|by eapply IH].
      destruct c' as [c'|]; [|by apply elem_of_nil in Hin].
      apply list_elem_of_singleton in Hin as ->.
      rewrite l2_diff_tab in Hc. cbv zeta in Hc.
      case_bool_decide; [|done]. injection Hc as Hc.
      assert (at_sweep c' = n) as -> by by rewrite Hc.
      simpl in H. destruct fuel; simpl in H; rewrite (leb_not_gtb _ _ Hle) in H;
        simpl in H; by injection H as <-.
    + intros [= <-]; simpl. intros E%(f_equal length). rewrite length_app in E.
      destruct more; [by intros ?%elem_of_nil | simpl in E; lia].
Qed.

End jit_sweep.

Ltac get_cell f i j :=
  rewrite (getitem_tab _ _ f (Z.of_nat i) (Z.of_nat j) i j) by (apply py_index_nat; lia);
  ok_bind.

Ltac nat_indices i j :=
  replace (Z.of_nat i + 1) with (Z.of_nat (i + 1)) by lia;
  replace (Z.of_nat i - 1) with (Z.of_nat (i - 1)) by lia;
  replace (Z.of_nat j + 1) with (Z.of_nat (j + 1)) by lia;
  replace (Z.of_nat j - 1) with (Z.of_nat (j - 1)) by lia.

Lemma relaxed_cc_tab ny nx pn b i j :
  interior ny nx i j →
  Jit.relaxed_cc (tab ny nx pn) (tab ny nx b) (Z.of_nat i) (Z.of_nat j) =
  Ok (stencil pn b i j).
Proof.
  intros (? & ? & ? & ?). unfold Jit.relaxed_cc. nat_indices i j.
  get_cell pn i (j + 1)%nat. get_cell pn i (j - 1)%nat.
  get_cell pn (i + 1)%nat j. get_cell pn (i - 1)%nat j.
  get_cell b i j. done.
Qed.

Lemma relaxed_exercise_tab ny nx pn b i j :
  interior ny nx i j →
  Jit.relaxed_exercise (tab ny nx pn) (tab ny nx b) (Z.of_nat i) (Z.of_nat j) =
  Ok (stencil_exercise pn b i j).
Proof.
  intros (? & ? & ? & ?). unfold Jit.relaxed_exercise. nat_indices i j.
  get_cell pn (i + 1)%nat j. get_cell pn (i - 1)%nat j.
  get_cell pn i (j + 1)%nat. get_cell pn i (j - 1)%nat.
  get_cell b i j. done.
Qed.

Lemma jit_bc_interior ny nx f i j : interior ny nx i j → jit_bc ny nx f i j = f i j.
Proof. intros. unfold jit_bc, jit_bc_cols, jit_bc_rows. tab_cases. Qed.

Lemma jit_bc_ring ny nx f i j :
  (2 ≤ ny)%nat → (2 ≤ nx)%nat → (i < ny)%nat → (j < nx)%nat →
  ((3 ≤ nx)%nat → jit_bc ny nx f i 0%nat = jit_bc ny nx f i 1%nat) ∧
  jit_bc ny nx f i (nx - 1)%nat = 0%float ∧
  jit_bc ny nx f (ny - 1)%nat j = jit_bc ny nx f (ny - 2)%nat j.
Proof. intros. unfold jit_bc, jit_bc_cols, jit_bc_rows. split_and!; intros; tab_cases. Qed.

(** What the claims C1 and C3 ask for holds for 06.1 and for the exercise
    solution: on arrays of one shape, at least 2 by 2, the call returns
    without raising after at most 501 sweeps; the convergence test is made
    exactly in the sweeps 0, 10, 20, ...; and the sweep of the first test at
    or below the tolerance is the last one. *)
Lemma loop_versions_keep_cap_and_period ny nx (p b : grid) tol fuel :
  rect ny nx p → rect ny nx b → (2 ≤ ny)%nat → (2 ≤ nx)%nat → (501 ≤ fuel)%nat →
  let conforms (r : result solve) :=
    ∃ s, r = Ok s
         ∧ (sweeps s ≤ 501)%nat
         ∧ at_sweep <$> checks s = filter (λ k, k `mod` 10 = 0)%nat (seq 0 (sweeps s))
         ∧ ∀ c, c ∈ checks s → (rel_change c <=? tol)%float = true →
                sweeps s = S (at_sweep c) in
  conforms (Jit.pressure_poisson_cc fuel p b tol) ∧
  conforms (Jit.pressure_poisson_exercise fuel p b tol).
Proof.
  intros Hp Hb Hy Hx Hf. as_tab p Hp; as_tab b Hb. cbv zeta.
  split.
  - destruct (jit_pressure_poisson_returns Jit.relaxed_cc ny nx _ (relaxed_cc_tab ny nx)
                cells0 cells tol fuel Hy Hx Hf) as (s & Hs & Hcap).
    exists s. split; [done|]. split; [done|].
    unfold Jit.pressure_poisson_cc, Jit.pressure_poisson in Hs.
    rewrite nrows_tab, ncols_tab in Hs by lia. split.
    + apply (jit_loop_checks _ ny nx _ (relaxed_cc_tab ny nx)) in Hs as ->; [|done..].
      by rewrite Nat.sub_0_r.
    + intros c. by apply (jit_loop_stops _ ny nx _ (relaxed_cc_tab ny nx) _ _ _ _ _ _ _ _
                            (checks s) c Hy Hx Hs).
  - destruct (jit_pressure_poisson_returns Jit.relaxed_exercise ny nx _
                (relaxed_exercise_tab ny nx) cells0 cells tol fuel Hy Hx Hf)
      as (s & Hs & Hcap).
    exists s. split; [done|]. split; [done|].
    unfold Jit.pressure_poisson_exercise, Jit.pressure_poisson in Hs.
    rewrite nrows_tab, ncols_tab in Hs by lia. split.
    + apply (jit_loop_checks _ ny nx _ (relaxed_exercise_tab ny nx)) in Hs as ->; [|done..].
      by rewrite Nat.sub_0_r.
    + intros c. by apply (jit_loop_stops _ ny nx _ (relaxed_exercise_tab ny nx)
                            _ _ _ _ _ _ _ _ (checks s) c Hy Hx Hs).
Qed.

(** ** 05.0.A: [velocity_term] *)

Lemma py_truediv_Ok x y : (y =? 0)%float = false → py_truediv x y = Ok (x / y)%float.
Proof. intros H. unfold py_truediv. by rewrite H. Qed.

Lemma py_truediv_Raise x y : (y =? 0)%float = true → py_truediv x y = Raise ZeroDivisionError.
Proof. intros H. unfold py_truediv. by rewrite H. Qed.

Lemma source_tab ny nx rho dt dx u v :
  (dt =? 0)%float = false → (dx =? 0)%float = false →
  Numpy.source rho dt (tab ny nx u) (tab ny nx v) dx =
  Ok (tab (ny - 2) (nx - 2) (λ a c, source_cell rho dt dx u v (1 + a) (1 + c))%nat).
Proof.
  intros Hdt Hdx. unfold Numpy.source.
  rewrite !py_truediv_Ok by done.
  rewrite !sl_in_hi_tab, !sl_in_lo_tab, !sl_hi_in_tab, !sl_lo_in_tab.
  repeat (ok_bind;
          rewrite ?sub_tab, ?add_tab, ?mul_tab, ?scale_tab, ?over_tab, ?square_tab).
  f_equal. apply tab_ext; intros a c _ _. unfold source_cell.
  repeat (f_equal; try lia).
Qed.

Lemma velocity_term_on_tab ny nx rho dt dx b u v :
  (dt =? 0)%float = false → (dx =? 0)%float = false →
  Numpy.velocity_term_on (tab ny nx b) rho dt (tab ny nx u) (tab ny nx v) dx =
  Ok (tab ny nx (on_interior ny nx (source_cell rho dt dx u v) b)).
Proof.
  intros Hdt Hdx. unfold Numpy.velocity_term_on. rewrite source_tab by done.
  ok_bind. rewrite set_inner_tab.
  f_equal. apply tab_ext; intros i j _ _. unfold on_interior.
  case_decide as H; [|done]. unfold interior in H. f_equal; lia.
Qed.

Lemma velocity_term_on_shape ny nx b rho dt u v dx b' :
  Numpy.velocity_term_on (tab ny nx b) rho dt u v dx = Ok b' → ∃ w, b' = tab ny nx w.
Proof.
  unfold Numpy.velocity_term_on. destruct (Numpy.source _ _ _ _ _); [|done..]; cbn.
  intros [w ->]%set_inner_ring. eauto.
Qed.

Lemma source_cell_zero rho dt dx i j :
  is_finite (rho * dx / 16) = true → is_finite (2 / dt) = true → is_finite (2 / dx) = true →
  is_zero (source_cell rho dt dx (λ _ _, 0%float) (λ _ _, 0%float) i j) = true.
Proof.
  intros Hc Ht Hx. apply is_zero_spec. unfold source_cell.
  change (0 - 0 + 0 - 0)%float with 0%float.
  change (0 - 0)%float with 0%float. change (0 * 0)%float with 0%float.
  assert (is_sf_zero (Prim2SF 0)) as H0 by by exists false.
  apply zero_mul; [done|]. repeat apply zero_sub.
  - by apply zero_mul.
  - rewrite mul_spec. destruct (zero_mul _ _ Hx H0) as [s ->]. by eexists.
  - by apply zero_div.
  - by apply zero_div.
Qed.

(** ** 05.0.A: one time step of [cavity_flow] *)

Lemma diffusion_Ok nu dt dx d : Numpy.diffusion nu dt dx = Ok d → d = (nu * dt / (dx * dx))%float.
Proof.
  unfold Numpy.diffusion, py_pow2, py_truediv.
  destruct (_ && _); [done|]; cbn. destruct (_ =? _)%float; [done|]. by intros [= <-].
Qed.

Lemma laplacian_tab ny nx w :
  Numpy.laplacian (tab ny nx w) =
  Ok (tab (ny - 2) (nx - 2)
        (λ a c, (w (1 + a)%nat (2 + c)%nat + w (1 + a)%nat c + w (2 + a)%nat (1 + c)%nat
                 + w a (1 + c)%nat - 4 * w (1 + a)%nat (1 + c)%nat)%float)).
Proof.
  unfold Numpy.laplacian.
  rewrite sl_in_hi_tab, sl_in_lo_tab, sl_hi_in_tab, sl_lo_in_tab, sl_in_in_tab.
  repeat (rewrite ?sub_tab, ?add_tab, ?scale_tab; ok_bind).
  done.
Qed.

Ltac np_step :=
  first
    [ rewrite sub_tab | rewrite add_tab | rewrite mul_tab
    | rewrite scale_tab | rewrite laplacian_tab
    | match goal with
      | |- mbind _ (py_truediv ?x ?y) = _ → _ =>
          let E := fresh "E" in
          destruct (y =? 0)%float eqn:E;
          [by rewrite (py_truediv_Raise x y E) | rewrite (py_truediv_Ok x y E)]
      | |- mbind _ (Numpy.diffusion ?nu ?dt ?dx) = _ → _ =>
          let Hd := fresh "Hd" in
          destruct (Numpy.diffusion nu dt dx) as [?d| |] eqn:Hd; [|done..];
          apply diffusion_Ok in Hd; subst
      end ];
  ok_bind.

Lemma u_interior_tab ny nx un vn p rho nu dt dx ui :
  Numpy.u_interior (tab ny nx un) (tab ny nx vn) (tab ny nx p) rho nu dt dx = Ok ui →
  ui = tab (ny - 2) (nx - 2) (λ a c, u_cell un vn p rho nu dt dx (1 + a) (1 + c))%nat.
Proof.
  unfold Numpy.u_interior.
  rewrite !sl_in_hi_tab, !sl_in_lo_tab, !sl_lo_in_tab, !sl_in_in_tab.
  repeat np_step. intros [= <-]. apply tab_ext; intros a c _ _.
  unfold u_cell. repeat (f_equal; try lia).
Qed.

Lemma v_interior_tab ny nx un vn p rho nu dt dx vi :
  Numpy.v_interior (tab ny nx un) (tab ny nx vn) (tab ny nx p) rho nu dt dx = Ok vi →
  vi = tab (ny - 2) (nx - 2) (λ a c, v_cell un vn p rho nu dt dx (1 + a) (1 + c))%nat.
Proof.
  unfold Numpy.v_interior.
  rewrite !sl_hi_in_tab, !sl_in_lo_tab, !sl_lo_in_tab, !sl_in_in_tab.
  repeat np_step. intros [= <-]. apply tab_ext; intros a c _ _.
  unfold v_cell. repeat (f_equal; try lia).
Qed.

Lemma velocity_boundary_tab ny nx u v :
  (1 ≤ ny)%nat → (1 ≤ nx)%nat →
  Numpy.velocity_boundary (tab ny nx u) (tab ny nx v) =
  Ok (tab ny nx (walls ny nx 1 u), tab ny nx (walls ny nx 0 v)).
Proof.
  intros Hy Hx. unfold Numpy.velocity_boundary.
  rewrite (fill_col_tab _ _ u _ 0%nat) by (lia || (apply py_index_0; lia)).
  ok_bind.
  rewrite (fill_col_tab _ _ _ (-1) (nx - 1)%nat) by (lia || (apply py_index_m1; lia)).
  ok_bind.
  rewrite (fill_col_tab _ _ v _ 0%nat) by (lia || (apply py_index_0; lia)).
  ok_bind.
  rewrite (fill_col_tab _ _ _ (-1) (nx - 1)%nat) by (lia || (apply py_index_m1; lia)).
  ok_bind.
  rewrite (fill_row_tab _ _ _ 0 0%nat) by (apply py_index_0; lia).
  ok_bind.
  rewrite (fill_row_tab _ _ _ (-1) (ny - 1)%nat) by (apply py_index_m1; lia).
  ok_bind.
  rewrite (fill_row_tab _ _ _ 0 0%nat) by (apply py_index_0; lia).
  ok_bind.
  rewrite (fill_row_tab _ _ _ (-1) (ny - 1)%nat) by (apply py_index_m1; lia).
  ok_bind.
  do 2 f_equal; unfold walls; tab_eq.
Qed.

Lemma time_step_tab fuel ny nx dt dx rho nu rtol u v p b s' :
  (2 ≤ ny)%nat → (2 ≤ nx)%nat →
  Numpy.time_step fuel dt dx rho nu rtol
    (Numpy.Flow (tab ny nx u) (tab ny nx v) (tab ny nx p) (tab ny nx b)) = Ok s' →
  ∃ p' b',
    s' = Numpy.Flow
           (tab ny nx (walls ny nx 1 (on_interior ny nx (u_cell u v p' rho nu dt dx) u)))
           (tab ny nx (walls ny nx 0 (on_interior ny nx (v_cell u v p' rho nu dt dx) v)))
           (tab ny nx p') (tab ny nx b').
Proof.
  intros Hy Hx. unfold Numpy.time_step; simpl.
  destruct (Numpy.velocity_term_on _ _ _ _ _ _) as [b'| |] eqn:Hb; [|done..].
  apply velocity_term_on_shape in Hb as [b1 ->].
  ok_bind; cbv zeta.
  destruct (Numpy.pressure_poisson _ _ _ _) as [r| |] eqn:Hr; [|done..].
  apply numpy_pressure_shape in Hr as [p1 Hp1]; [|done..].
  ok_bind; cbv zeta.
  rewrite Hp1.
  destruct (Numpy.u_interior _ _ _ _ _ _ _) as [ui| |] eqn:Hu; [|done..].
  apply u_interior_tab in Hu as ->.
  ok_bind; cbv zeta. rewrite set_inner_tab.
  ok_bind; cbv zeta.
  destruct (Numpy.v_interior _ _ _ _ _ _ _) as [vi| |] eqn:Hv; [|done..].
  apply v_interior_tab in Hv as ->.
  ok_bind; cbv zeta. rewrite set_inner_tab.
  ok_bind; cbv zeta.
  rewrite velocity_boundary_tab by lia.
  ok_bind; cbv zeta. intros [= <-].
  exists p1, b1. f_equal; apply tab_ext; intros i j _ _; unfold walls, on_interior;
    repeat case_decide; try done; unfold interior in *; f_equal; lia.
Qed.

Lemma time_loop_tab fuel ny nx dt dx rho nu rtol nt : ∀ u v p b s',
  (2 ≤ ny)%nat → (2 ≤ nx)%nat →
  Numpy.time_loop fuel (S nt) dt dx rho nu rtol
    (Numpy.Flow (tab ny nx u) (tab ny nx v) (tab ny nx p) (tab ny nx b)) = Ok s' →
  ∃ u' v' p' b',
    s' = Numpy.Flow (tab ny nx (walls ny nx 1 u')) (tab ny nx (walls ny nx 0 v'))
                    (tab ny nx p') (tab ny nx b').
Proof.
  induction nt as [|nt IH]; intros u v p b s' Hy Hx.
  - simpl. destruct (Numpy.time_step _ _ _ _ _ _ _) as [s1| |] eqn:H1; [|done..].
    apply time_step_tab in H1 as (p' & b' & ->); [|done..].
    ok_bind. intros [= <-]. eauto.
  - change (Numpy.time_loop fuel (S (S nt)) dt dx rho nu rtol ?s)
      with (Numpy.time_step fuel dt dx rho nu rtol s
            ≫= Numpy.time_loop fuel (S nt) dt dx rho nu rtol).
    destruct (Numpy.time_step _ _ _ _ _ _ _) as [s1| |] eqn:H1; [|done..].
    apply time_step_tab in H1 as (p' & b' & ->); [|done..].
    ok_bind. by apply IH.
Qed.

Lemma walls_ring ny nx lid f i j :
  (2 ≤ ny)%nat → (2 ≤ nx)%nat → (i < ny)%nat → (j < nx)%nat →
  walls ny nx lid f (ny - 1) j = lid ∧
  walls ny nx lid f 0 j = 0%float ∧
  ((i < ny - 1)%nat → walls ny nx lid f i 0 = 0%float ∧ walls ny nx lid f i (nx - 1) = 0%float).
Proof. intros. unfold walls. split_and!; intros; tab_cases. Qed.

(** * The claims *)

(** ** C1: the iteration cap *)

(** C1 (the code at the failing input).  With the default tolerance, a zero
    source and the pressure [[1,1,1],[1,1,1],[0,0,0]], 05.0.A's
    [pressure_poisson] is still looping after 501 sweeps; it returns after
    1292 sweeps, when the squares of the changes underflow. *)
Theorem numpy_cap_is_dead :
  Numpy.pressure_poisson 501 decaying_p (zeros 3 3) default_l2_target = Running ∧
  ∃ s, Numpy.pressure_poisson 1292 decaying_p (zeros 3 3) default_l2_target = Ok s
       ∧ sweeps s = 1292%nat ∧ length (checks s) = 1292%nat.
Proof.
  split; [by vm_compute|].
  eexists. split; [vm_compute; reflexivity|]. by vm_compute.
Qed.

(** ** C2: the relaxation step *)




(** ** C3: the convergence test every tenth sweep *)

(** C3 (the code at the failing input).  From [[2,2,2],[2,2,2],[0,0,0]] with
    source -0.25 in the centre and tolerance 7/64, 05.0.A's
    [pressure_poisson] makes the convergence test in sweep 0 and again in
    sweep 1, and returns after these two sweeps because the second test gave
    3/28. *)
Theorem numpy_tests_every_sweep :
  ∃ s, Numpy.pressure_poisson 2 settling_p settling_b 0.109375 = Ok s
       ∧ sweeps s = 2%nat
       ∧ at_sweep <$> checks s = [0; 1]%nat
       ∧ rel_change <$> checks s = [0.125; 0x1.b6db6db6db6dcp-4]%float.
Proof. eexists. split; [vm_compute; reflexivity|]. by vm_compute. Qed.

(** ** C4: the boundary of the returned pressure *)

(** C4 (as amended).  Whenever [l2_target + 1 > l2_target] holds in binary64
    and the call returns: in 05.0.A column 0 of the returned [p] equals
    column 1 and the last row is zero; in the loop versions (06.1 and the
    exercise solution) the last column is zero, the last row equals the row
    above it, and column 0 equals column 1 when the array has at least three
    columns. *)
Theorem boundary_after_return ny nx (p b : grid) tol fuel s i j :
  rect ny nx p → rect ny nx b → (2 ≤ ny)%nat → (2 ≤ nx)%nat →
  (tol <? tol + 1)%float = true → (i < ny)%nat → (j < nx)%nat →
  let q := pressure s in
  (Numpy.pressure_poisson fuel p b tol = Ok s →
   val q i 0 = val q i 1 ∧ val q (ny - 1) j = 0%float) ∧
  (Jit.pressure_poisson_cc fuel p b tol = Ok s
   ∨ Jit.pressure_poisson_exercise fuel p b tol = Ok s →
   ((3 ≤ nx)%nat → val q i 0 = val q i 1) ∧
   val q i (nx - 1) = 0%float ∧
   val q (ny - 1) j = val q (ny - 2) j).
Proof.
  intros Hp Hb Hy Hx Htol Hi Hj q. subst q. as_tab p Hp; as_tab b Hb. split.
  - intros H. apply numpy_first_sweep in H as (_ & [f ->] & _); [|done..].
    rewrite !val_tab by lia. by apply numpy_bc_ring.
  - intros H.
    assert (∃ f, pressure s = tab ny nx (jit_bc ny nx f)) as [f ->].
    { destruct H as [H|H].
      - by apply (jit_first_sweep _ ny nx _ (relaxed_cc_tab ny nx)) in H as (_ & ? & _).
      - by apply (jit_first_sweep _ ny nx _ (relaxed_exercise_tab ny nx)) in H
          as (_ & ? & _). }
    rewrite !val_tab by lia. by apply jit_bc_ring.
Qed.

Lemma boundary_after_return_witness :
  ∃ s, Numpy.pressure_poisson 1 ones3 (zeros 3 3) 1 = Ok s
       ∧ val (pressure s) 0 0 = val (pressure s) 0 1
       ∧ val (pressure s) 2 1 = 0%float.
Proof.
  pose proof (boundary_after_return 3 3 ones3 (zeros 3 3) 1 1) as H.
  eexists. split; [vm_compute; reflexivity|].
  eapply H; [apply rect_3_3 | apply rect_3_3 | lia | lia | by vm_compute | lia | lia
            | by vm_compute].
Defined.

(** C4 as stated fails for the loop versions: from an all-ones pressure with a
    zero source and tolerance 1 they return [[1,1,0],[1,1,0],[1,1,0]], whose
    last row is not zero. *)
Lemma jit_last_row_is_not_zero :
  Jit.pressure_poisson_cc 501 ones3 (zeros 3 3) 1 =
    Ok (Solve [[1; 1; 0]; [1; 1; 0]; [1; 1; 0]]%float 1
          [Check 0 3 9 (PrimFloat.sqrt (3 / 9))]) ∧
  Jit.pressure_poisson_exercise 501 ones3 (zeros 3 3) 1 =
    Ok (Solve [[1; 1; 0]; [1; 1; 0]; [1; 1; 0]]%float 1
          [Check 0 3 9 (PrimFloat.sqrt (3 / 9))]) ∧
  val [[1; 1; 0]; [1; 1; 0]; [1; 1; 0]]%float 2 0 ≠ 0%float.
Proof.
  split_and!; [by vm_compute..|]. apply float_neq. by vm_compute.
Qed.

(** ** C5: the source term *)

(** C5 (as amended).  For arrays [b], [u], [v] of one shape and Python floats
    [rho], [dt], [dx] with [dt != 0] and [dx != 0], [velocity_term] returns
    [b] with every interior cell set to
    [rho*dx/16 * ((2/dt)*(u[i,j+1]-u[i,j-1]+v[i+1,j]-v[i-1,j])
                  - (2/dx)*(u[i+1,j]-u[i-1,j])*(v[i,j+1]-v[i,j-1])
                  - (u[i,j+1]-u[i,j-1])**2/dx - (v[i+1,j]-v[i-1,j])**2/dx)],
    evaluated in binary64 from the values [u] and [v] held before the call.
    When [u] and [v] are all zero and [rho*dx/16], [2/dt] and [2/dx] are
    finite, every interior cell of the returned [b] is zero. *)
Theorem velocity_term_interior ny nx (h : Numpy.heap) (b u v : nat) rho dt dx i j :
  rect ny nx (h !!! b) → rect ny nx (h !!! u) → rect ny nx (h !!! v) →
  (dt =? 0)%float = false → (dx =? 0)%float = false →
  interior ny nx i j →
  ∃ b', Numpy.velocity_term b rho dt u v dx h = Ok (b, <[b := b']> h)
        ∧ rect ny nx b'
        ∧ val b' i j = source_cell rho dt dx (val (h !!! u)) (val (h !!! v)) i j
        ∧ (h !!! u = zeros ny nx → h !!! v = zeros ny nx →
           is_finite (rho * dx / 16) = true → is_finite (2 / dt) = true →
           is_finite (2 / dx) = true →
           is_zero (val b' i j) = true).
Proof.
  intros Hb Hu Hv Hdt Hdx Hin. unfold Numpy.velocity_term.
  assert (i < ny ∧ j < nx)%nat as [Hi Hj] by (unfold interior in Hin; lia).
  as_tab (h !!! b) Hb; as_tab (h !!! u) Hu; as_tab (h !!! v) Hv.
  rewrite velocity_term_on_tab by done. eexists. split; [done|].
  split; [apply rect_tab|]. rewrite val_tab, on_interior_in by done.
  split; [done|]. rewrite zeros_tab. intros Eu Ev Hc Ht Hx.
  rewrite <-(source_cell_zero rho dt dx i j Hc Ht Hx). f_equal.
  unfold source_cell, interior in *.
  repeat match goal with
         | |- context [cells0 ?a ?c] =>
             replace (cells0 a c) with 0%float
               by (rewrite <-(val_tab ny nx cells0 a c), Eu, val_tab by lia; done)
         | |- context [cells1 ?a ?c] =>
             replace (cells1 a c) with 0%float
               by (rewrite <-(val_tab ny nx cells1 a c), Ev, val_tab by lia; done)
         end.
  done.
Qed.

Lemma velocity_term_interior_witness :
  ∃ b', Numpy.velocity_term 0 1 0.5 1 2 1 zero_heap = Ok (0%nat, <[0%nat := b']> zero_heap)
        ∧ is_zero (val b' 1 1) = true.
Proof.
  destruct (velocity_term_interior 3 3 zero_heap 0 1 2 1 0.5 1 1 1)
    as (b' & Hb' & _ & _ & Hz).
  - apply rect_3_3.
  - apply rect_3_3.
  - apply rect_3_3.
  - by vm_compute.
  - by vm_compute.
  - unfold interior. lia.
  - exists b'. split; [done|]. by apply Hz.
Defined.

(** C5 as stated fails for a positive time step of 2^-1030: [2/dt] overflows
    to infinity, and for all-zero [u] and [v] the interior of [b] becomes
    NaN, not zero.  With [dt = 0.0] the quotient [2 / dt] of Python floats
    raises and no cell is written. *)
Lemma tiny_dt_gives_nan_source :
  Numpy.velocity_term 0 1 0x1p-1030 1 2 1 zero_heap =
    Ok (0%nat, <[0%nat := [[0; 0; 0]; [0; nan; 0]; [0; 0; 0]]%float]> zero_heap) ∧
  is_zero nan = false ∧
  (0 <? 0x1p-1030)%float = true ∧
  Numpy.velocity_term 0 1 0 1 2 1 zero_heap = Raise ZeroDivisionError.
Proof. split_and!; by vm_compute. Qed.

(** ** C6: the advecting velocities of the [v] update *)




(** ** C7: the velocity boundary *)

(** C7 (as amended).  After every time step of [cavity_flow], that is after
    [nt >= 1] steps whatever [nt] is: [v] is 0 on all four edges; [u] is 1 on
    the whole lid row (the last row, its two corner cells included) and 0 on
    row 0 and on the left and right columns below the lid row. *)
Theorem velocity_boundary_after_steps fuel nt ny nx (u v p u' v' p' : grid)
    dt dx rho nu rtol i j :
  rect ny nx u → rect ny nx v → rect ny nx p →
  (2 ≤ ny)%nat → (2 ≤ nx)%nat → (1 ≤ nt)%nat → (i < ny)%nat → (j < nx)%nat →
  Numpy.cavity_flow fuel nt u v dt dx p rho nu rtol = Ok (u', v', p') →
  (val u' (ny - 1) j = 1 ∧ val v' (ny - 1) j = 0 ∧
   val u' 0 j = 0 ∧ val v' 0 j = 0 ∧
   val v' i 0 = 0 ∧ val v' i (nx - 1) = 0 ∧
   ((i < ny - 1)%nat → val u' i 0 = 0 ∧ val u' i (nx - 1) = 0))%float.
Proof.
  intros Hu Hv Hp Hy Hx Hnt Hi Hj. unfold Numpy.cavity_flow.
  as_tab u Hu; as_tab v Hv; as_tab p Hp.
  rewrite nrows_tab, ncols_tab, zeros_tab by lia.
  destruct nt as [|nt]; [lia|].
  destruct (Numpy.time_loop _ _ _ _ _ _ _ _) as [s| |] eqn:H; [|done..].
  apply time_loop_tab in H as (u1 & v1 & p1 & b1 & ->); [|done..].
  ok_bind. simpl. intros [= <- <- <-].
  rewrite !val_tab by lia.
  destruct (walls_ring ny nx 1 u1 i j) as (-> & -> & Hcu); [done..|].
  destruct (walls_ring ny nx 0 v1 i j) as (-> & -> & Hcv); [done..|].
  split_and!; try done.
  - destruct (decide (i = ny - 1)%nat) as [->|]; [|apply Hcv; lia].
    by destruct (walls_ring ny nx 0 v1 0 0) as (-> & _); [done | done | lia | lia|].
  - destruct (decide (i = ny - 1)%nat) as [->|]; [|apply Hcv; lia].
    by destruct (walls_ring ny nx 0 v1 0 (nx - 1)) as (-> & _); [done | done | lia | lia|].
Qed.

Lemma velocity_boundary_after_steps_witness :
  ∃ u' v' p', Numpy.cavity_flow 1 1 (zeros 3 3) (zeros 3 3) 1 1 (zeros 3 3) 1 0
                default_l2_target = Ok (u', v', p')
              ∧ val u' 2 1 = 1%float ∧ val v' 2 1 = 0%float.
Proof.
  pose proof (λ u' v' p', velocity_boundary_after_steps 1 1 3 3 (zeros 3 3) (zeros 3 3)
                            (zeros 3 3) u' v' p' 1 1 1 0 default_l2_target 1 1
                            (rect_zeros 3 3) (rect_zeros 3 3) (rect_zeros 3 3)) as H.
  eexists _, _, _. split; [vm_compute; reflexivity|].
  edestruct H as (Hu & Hv & _); [lia.. | vm_compute; reflexivity |].
  split; [exact Hu | exact Hv].
Defined.

(** C7 as stated fails in the two lid corners: after one step from rest [u]
    is [[0,0,0],[0,0,0],[1,1,1]], so the left and the right column of [u]
    hold 1, not 0, in the lid row. *)
Lemma lid_corners_move :
  ∃ u' v' p', Numpy.cavity_flow 1 1 (zeros 3 3) (zeros 3 3) 1 1 (zeros 3 3) 1 0
                default_l2_target = Ok (u', v', p')
              ∧ val u' 2 0 = 1%float ∧ val u' 2 2 = 1%float
              ∧ val u' 2 0 ≠ 0%float ∧ val u' 2 2 ≠ 0%float.
Proof.
  eexists _, _, _. split; [vm_compute; reflexivity|].
  split_and!; [by vm_compute.. | |]; apply float_neq; by vm_compute.
Qed.

(** ** C8: the zero denominator *)


(** ** C9: what [velocity_term] leaves alone *)



(** ** C10: the first sweep *)



